(** * UK gilt analytics: a shallow embedding of [gilts/gilts.py]

    The development follows the Python module: calendar primitives
    ([ukcalendar], imported by the module), the [Gilt] and
    [IndexLinkedGilt] classes, the selection of [Issued.filter],
    [schedule], and the event ordering, the tax events and the main
    loop of [BondLadder.solve].

    Modelling conventions.
    - [datetime.date] is a record of year, month and day; [toordinal]
      is the proleptic Gregorian ordinal of CPython, [(a - b).days] is
      the difference of ordinals and date comparisons compare ordinals
      (which, for well-formed dates, is the field-wise comparison, see
      [date_ltb_lex]).  The range 1..9999 of Python years is not
      modelled.
    - Python floats are exact rationals ([Q]): the rounding error of
      binary64 arithmetic is not modelled.  A division whose divisor
      can be zero is [fdiv] and raises [ZeroDivisionError].
    - Exceptions are the [Raise] outcomes of the [result] monad. *)

From Stdlib Require Import ZArith QArith Qround Qabs Lia Lqa Bool List String.
From Stdlib Require Import Sorting.Sorted Sorting.Permutation.
From Stdlib Require DecimalString.
Import ListNotations.

Local Open Scope Z_scope.

(* ================================================================== *)
(** ** Exceptions *)

Inductive exn : Type :=
| IndexError
| AssertionError
| ZeroDivisionError
| ValueError
| RuntimeError
| OverflowError.

Inductive result (A : Type) : Type :=
| Ok (a : A)
| Raise (e : exn).

Arguments Ok {A} a.
Arguments Raise {A} e.

Definition bind {A B : Type} (c : result A) (k : A -> result B) : result B :=
  match c with
  | Ok a => k a
  | Raise e => Raise e
  end.

Definition assert (b : bool) : result unit :=
  if b then Ok tt else Raise AssertionError.

Declare Scope result_scope.
Delimit Scope result_scope with result.
Notation "x <- c ;; k" := (bind c (fun x => k))
  (at level 61, c at next level, right associativity) : result_scope.
Notation "' p <- c ;; k" := (bind c (fun x => let p := x in k))
  (at level 61, p pattern, c at next level, right associativity) : result_scope.
Notation "c ;;; k" := (bind c (fun _ => k))
  (at level 61, right associativity) : result_scope.

(* ================================================================== *)
(** ** Calendar primitives ([datetime.date] and [ukcalendar]) *)

Module Calendar.

Record date : Type := mkdate { year : Z; month : Z; day : Z }.

Definition is_leap (y : Z) : bool :=
  (y mod 4 =? 0) && (negb (y mod 100 =? 0) || (y mod 400 =? 0)).

(** Modelled from the spec: [ukcalendar.days_in_month] is not among the
    sources; section 4.A lists it, the number of days of a month
    ([calendar.monthrange(year, month)[1]]). *)
Definition days_in_month (y m : Z) : Z :=
  match m with
  | 2 => if is_leap y then 29 else 28
  | 4 | 6 | 9 | 11 => 30
  | _ => 31
  end.

(** Days before January 1st of year [y] (CPython [_days_before_year]). *)
Definition days_before_year (y : Z) : Z :=
  let y' := y - 1 in
  y' * 365 + y' / 4 - y' / 100 + y' / 400.

(** Days of year [y] before the first of month [m]
    (CPython [_days_before_month]). *)
Definition days_before_month (y m : Z) : Z :=
  match m with
  | 1 => 0 | 2 => 31 | 3 => 59 | 4 => 90 | 5 => 120 | 6 => 151
  | 7 => 181 | 8 => 212 | 9 => 243 | 10 => 273 | 11 => 304 | _ => 334
  end + (if (2 <? m) && is_leap y then 1 else 0).

(** [date.toordinal()] *)
Definition toordinal (d : date) : Z :=
  days_before_year (year d) + days_before_month (year d) (month d) + day d.

(** The invariant of a [datetime.date] object. *)
Definition valid_dateb (d : date) : bool :=
  (1 <=? month d) && (month d <=? 12) &&
  (1 <=? day d) && (day d <=? days_in_month (year d) (month d)).

Definition valid_date (d : date) : Prop := valid_dateb d = true.

(** [(a - b).days] *)
Definition days (a b : date) : Z := toordinal a - toordinal b.

Definition date_ltb (a b : date) : bool := toordinal a <? toordinal b.
Definition date_leb (a b : date) : bool := toordinal a <=? toordinal b.
Definition date_gtb (a b : date) : bool := date_ltb b a.
Definition date_geb (a b : date) : bool := date_leb b a.

(** Field-wise comparison, the way CPython compares the packed
    (year, month, day) bytes. *)
Definition date_ltb_fields (a b : date) : bool :=
  (year a <? year b) ||
  ((year a =? year b) &&
   ((month a <? month b) || ((month a =? month b) && (day a <? day b)))).

(** Modelled from the spec: [ukcalendar.shift_month] is not among the
    sources; section 4.A describes it as the month shift "clamping day
    to end of month". *)
Definition shift_month (d : date) (n : Z) : date :=
  let mi := year d * 12 + (month d - 1) + n in
  let y := mi / 12 in
  let m := mi mod 12 + 1 in
  mkdate y m (Z.min (day d) (days_in_month y m)).

(** Months since year 0, and the ordinal of the day before the first of
    a month given by its index: the coordinates in which month shifts
    are additions. *)
Definition month_index (d : date) : Z := year d * 12 + (month d - 1).

Definition month_start (mi : Z) : Z :=
  days_before_year (mi / 12) + days_before_month (mi / 12) (mi mod 12 + 1).

Definition month_len (mi : Z) : Z := days_in_month (mi / 12) (mi mod 12 + 1).

End Calendar.

Export Calendar.

Declare Scope date_scope.
Delimit Scope date_scope with date.
Infix "<?" := date_ltb : date_scope.
Infix "<=?" := date_leb : date_scope.
Infix ">?" := date_gtb : date_scope.
Infix ">=?" := date_geb : date_scope.

(** [datetime.MINYEAR] and [datetime.MAXYEAR] *)
Definition MINYEAR : Z := 1.
Definition MAXYEAR : Z := 9999.

(** [date.replace(year=..., month=..., day=...)]: the fields given are
    replaced; a [ValueError] when the result is not a date, because the
    new year is not in [MINYEAR .. MAXYEAR] or the month or the day
    does not exist.  (A year that is not replaced is the year of a
    date, and in that range.) *)
Definition replace (d : date) (year' month' day' : option Z) : result date :=
  let field (old : Z) (new : option Z) :=
    match new with Some v => v | None => old end in
  let d' := mkdate (field (year d) year') (field (month d) month')
                   (field (day d) day') in
  let year_in_range :=
    match year' with
    | Some y => (MINYEAR <=? y) && (y <=? MAXYEAR)
    | None => true
    end in
  if year_in_range && valid_dateb d' then Ok d' else Raise ValueError.

(** Modelled from the spec: [ukcalendar.prev_business_day] is not among
    the sources and the UK bank-holiday calendar is an input of the
    engine (section 1: "assumed available as a primitive").  The
    calendar is therefore an interface. *)
Class BusinessCalendar : Type :=
  { prev_business_day : date -> date }.

(* ================================================================== *)
(** ** Float arithmetic *)

Local Open Scope Q_scope.

(** [a / b] on floats: raises when the divisor is zero. *)
Definition fdiv (a b : Q) : result Q :=
  if Qeq_bool b 0 then Raise ZeroDivisionError else Ok (a / b).

(** [a / b] on two integers (true division). *)
Definition truediv (a b : Z) : result Q := fdiv (inject_Z a) (inject_Z b).

(** Rounding of a rational to the nearest integer, ties to even. *)
Definition round_half_even (q : Q) : Z :=
  let f := Qfloor q in
  match Qcompare (q - inject_Z f) (1 # 2) with
  | Lt => f
  | Gt => (f + 1)%Z
  | Eq => if Z.even f then f else (f + 1)%Z
  end.

(** The builtin [round(x, ndigits)]. *)
Definition round (x : Q) (ndigits : Z) : Q :=
  inject_Z (round_half_even (x * inject_Z (10 ^ ndigits))) / inject_Z (10 ^ ndigits).

(** A number that [ytm] computes: a float or, from a power of a
    negative base, a complex number, whose value the model does not
    represent.  Arithmetic with a complex number gives a complex
    number. *)
Inductive number : Type :=
| Float (x : Q)
| Complex.

Definition lift2 (op : Q -> Q -> Q) (a b : number) : number :=
  match a, b with
  | Float x, Float y => Float (op x y)
  | _, _ => Complex
  end.

(** The outcomes of [x ** y] on two floats: a float; a complex number
    (negative base, exponent not integral); [OverflowError] when the
    result is too large for a float; [ZeroDivisionError] for zero to a
    negative power. *)
Inductive power : Type :=
| PowFloat (z : Q)
| PowComplex
| PowOverflowError
| PowZeroDivisionError.

(** The float primitives that have no rational counterpart: the power
    operator [**] and [scipy.optimize.newton], which is given the
    function and the first guess. *)
Class FloatPrims : Type :=
  { fpow : Q -> Q -> power;
    newton : (Q -> result number) -> Q -> result number }.

(** [x ** y] *)
Definition pow {floats : FloatPrims} (x y : Q) : result number :=
  match fpow x y with
  | PowFloat z => Ok (Float z)
  | PowComplex => Ok Complex
  | PowOverflowError => Raise OverflowError
  | PowZeroDivisionError => Raise ZeroDivisionError
  end.

(** [a / b] where [a] may be complex (the divisor is a float). *)
Definition ndiv (a : number) (b : Q) : result number :=
  if Qeq_bool b 0 then Raise ZeroDivisionError
  else Ok (lift2 Qdiv a (Float b)).

(* ================================================================== *)
(** ** class Gilt *)

Inductive Period : Type := SHORT | STANDARD | LONG.

Record Gilt : Type := mkGilt
  { name : string;
    isin : string;
    coupon : Q;
    maturity : date;
    issue_date : date }.

Module Gilt.

Section Methods.

Context {calendar : BusinessCalendar}.

Definition min_coupon_days : Z := 60.

(** The [while] loop of [coupon_dates]; [None] when the loop bound of
    the model is exhausted (never the case: [coupon_loop_spec]). *)
Fixpoint coupon_loop (fuel : nat) (self : Gilt) (settlement_date : date)
    (next_coupon_dates : list date) (prev_coupon_date : date) (periods : Z)
    : option (date * list date) :=
  match fuel with
  | O => None
  | S fuel =>
      if (days prev_coupon_date (issue_date self) >=? min_coupon_days)%Z then
        let next_coupon_dates := next_coupon_dates ++ [prev_coupon_date] in
        let periods := (periods + 1)%Z in
        let prev_coupon_date := shift_month (maturity self) (-6 * periods) in
        if (prev_coupon_date <? settlement_date)%date
        then Some (prev_coupon_date, next_coupon_dates)
        else coupon_loop fuel self settlement_date
               next_coupon_dates prev_coupon_date periods
      else Some (prev_coupon_date, next_coupon_dates)
  end.

Definition coupon_fuel (self : Gilt) : nat :=
  S (Z.to_nat (days (maturity self) (issue_date self))).

Definition coupon_dates (self : Gilt) (settlement_date : date)
    : result (date * list date) :=
  (assert (settlement_date >=? issue_date self)%date ;;;
   assert (settlement_date <=? maturity self)%date ;;;
   match coupon_loop (coupon_fuel self) self settlement_date [] (maturity self) 0 with
   | Some (prev_coupon_date, next_coupon_dates) =>
       Ok (prev_coupon_date, rev next_coupon_dates)
   | None => Raise RuntimeError
   end)%result.

Definition prev_next_coupon_date (self : Gilt) (settlement_date : date)
    : result (date * date) :=
  ('(prev_coupon_date, next_coupon_dates) <- coupon_dates self settlement_date ;;
   match next_coupon_dates with
   | next_coupon_date :: _ => Ok (prev_coupon_date, next_coupon_date)
   | [] => Raise IndexError
   end)%result.

Definition ex_dividend_date (coupon_date : date) : date :=
  Nat.iter 7 prev_business_day coupon_date.

Definition _period (self : Gilt) (prev_coupon_date : date) : Period :=
  if (days prev_coupon_date (issue_date self) >=? min_coupon_days)%Z then STANDARD
  else if (prev_coupon_date <=? issue_date self)%date then SHORT
  else LONG.

Definition accrued_interest (self : Gilt) (settlement_date : date) : result Q :=
  ('(prev_coupon_date, next_coupon_date) <-
      prev_next_coupon_date self settlement_date ;;
   let dividend := coupon self / 2 in
   let full_coupon_days := days next_coupon_date prev_coupon_date in
   let xd_date := ex_dividend_date next_coupon_date in
   accrued_interest <-
     match _period self prev_coupon_date with
     | STANDARD =>
         let interest_days := days settlement_date prev_coupon_date in
         accrued_interest <- truediv interest_days full_coupon_days ;;
         if (settlement_date >? xd_date)%date
         then Ok (accrued_interest - 1)
         else Ok accrued_interest
     | SHORT =>
         let interest_days := days settlement_date (issue_date self) in
         let coupon_days := days next_coupon_date (issue_date self) in
         if (settlement_date <=? xd_date)%date
         then truediv interest_days full_coupon_days
         else truediv (interest_days - coupon_days) full_coupon_days
     | LONG =>
         let prev_prev_coupon_date := shift_month prev_coupon_date (-6) in
         let prev_full_coupon_days := days prev_coupon_date prev_prev_coupon_date in
         if (settlement_date <? prev_coupon_date)%date then
           let interest_days := days settlement_date (issue_date self) in
           truediv interest_days prev_full_coupon_days
         else
           let interest_days := days settlement_date prev_coupon_date in
           if (settlement_date <=? xd_date)%date then
             a <- truediv (days prev_coupon_date (issue_date self))
                    prev_full_coupon_days ;;
             b <- truediv interest_days full_coupon_days ;;
             Ok (a + b)
           else
             a <- truediv interest_days full_coupon_days ;;
             Ok (a - 1)
     end ;;
   Ok (accrued_interest * dividend))%result.

Definition dirty_price (self : Gilt) (clean_price : Q) (settlement_date : date)
    : result Q :=
  (a <- accrued_interest self settlement_date ;; Ok (clean_price + a))%result.

Definition clean_price (self : Gilt) (dirty_price : Q) (settlement_date : date)
    : result Q :=
  (a <- accrued_interest self settlement_date ;; Ok (dirty_price - a))%result.

Definition cash_flows (self : Gilt) (settlement_date : date)
    : result (list (date * Q)) :=
  (if (settlement_date >? ex_dividend_date (maturity self))%date then Ok []
   else
     '(prev_coupon_date, next_coupon_dates) <- coupon_dates self settlement_date ;;
     match next_coupon_dates with
     | [] => Raise IndexError
     | first :: rest =>
         let xd_date := ex_dividend_date first in
         '(transactions, next_coupon_dates) <-
           (if (settlement_date >? xd_date)%date then
              (* prev_coupon_date = next_coupon_dates.pop(0) *)
              Ok ([], rest)
            else
              match _period self prev_coupon_date with
              | STANDARD => Ok ([], next_coupon_dates)
              | SHORT =>
                  let next_coupon_date := first in
                  r <- truediv (days next_coupon_date (issue_date self))
                         (days next_coupon_date prev_coupon_date) ;;
                  Ok ([(next_coupon_date, r * coupon self / 2)], rest)
              | LONG =>
                  let next_coupon_date := first in
                  let prev_prev_coupon_date := shift_month prev_coupon_date (-6) in
                  q <- truediv (days prev_coupon_date (issue_date self))
                         (days prev_coupon_date prev_prev_coupon_date) ;;
                  let r := q + 1 in
                  Ok ([(next_coupon_date, r * coupon self / 2)], rest)
              end) ;;
         Ok (transactions
               ++ map (fun next_coupon_date => (next_coupon_date, coupon self / 2))
                    next_coupon_dates
               ++ [(maturity self, 100)])
     end)%result.

Context {floats : FloatPrims}.

(** The state of [ytm] when it reaches its price/yield formula: the
    coupon dates around settlement, the number [n] of further coupons
    and the first two dividends, after the ex-dividend and first-period
    adjustments and the assertions. *)
Record ytm_frame : Type := mk_ytm_frame
  { prev_coupon : date; next_coupon : date;
    n : Z; d1 : Q; d2 : Q; r : Z; s : Z }.

Definition ytm_prepare (self : Gilt) (settlement_date : date) : result ytm_frame :=
  ('(prev_coupon_date, next_coupon_dates) <- coupon_dates self settlement_date ;;
   next_coupon_date <-
     match next_coupon_dates with
     | d :: _ => Ok d
     | [] => Raise IndexError
     end ;;
   let n := (Z.of_nat (List.length next_coupon_dates) - 1)%Z in
   let c := coupon self in
   let f := 2 in
   let d1 := c / f in
   let d2 := c / f in
   let xd_date := ex_dividend_date next_coupon_date in
   '(prev_coupon_date, next_coupon_date, n, d1, d2) <-
     (if (settlement_date >? xd_date)%date then
        Ok (prev_coupon_date, next_coupon_date, n, 0, d2)
      else
        match _period self prev_coupon_date with
        | STANDARD => Ok (prev_coupon_date, next_coupon_date, n, d1, d2)
        | SHORT =>
            assert (prev_coupon_date <=? issue_date self)%date ;;;
            assert (issue_date self <=? next_coupon_date)%date ;;;
            q <- truediv (days next_coupon_date (issue_date self))
                   (days next_coupon_date prev_coupon_date) ;;
            Ok (prev_coupon_date, next_coupon_date, n, d1 * q, d2)
        | LONG =>
            let prev_prev_coupon_date := shift_month prev_coupon_date (-6) in
            q <- truediv (days prev_coupon_date (issue_date self))
                   (days prev_coupon_date prev_prev_coupon_date) ;;
            let d1 := d1 * (1 + q) in
            if (settlement_date <=? prev_coupon_date)%date then
              let next_coupon_date := prev_coupon_date in
              let prev_coupon_date := prev_prev_coupon_date in
              assert (prev_coupon_date <=? issue_date self)%date ;;;
              assert (issue_date self <=? next_coupon_date)%date ;;;
              Ok (prev_coupon_date, next_coupon_date, (n + 1)%Z, 0, d1)
            else Ok (prev_coupon_date, next_coupon_date, n, d1, d2)
        end) ;;
   assert (prev_coupon_date <? settlement_date)%date ;;;
   assert (settlement_date <=? next_coupon_date)%date ;;;
   let r := days next_coupon_date settlement_date in
   assert (r >=? 0)%Z ;;;
   let s := days next_coupon_date prev_coupon_date in
   assert ((s >=? 181) && (s <=? 184))%Z ;;;
   Ok (mk_ytm_frame prev_coupon_date next_coupon_date n d1 d2 r s))%result.

(** [ytm], from the frame on.  The function [fn] that the root finder
    evaluates raises what its powers and its division raise. *)
Definition ytm (self : Gilt) (dirty_price : Q) (settlement_date : date)
    : result number :=
  (let P := dirty_price in
   fr <- ytm_prepare self settlement_date ;;
   let c := coupon self in
   let f := 2 in
   if (n fr >? 0)%Z then
     let fn (v : Q) : result number :=
       e <- truediv (r fr) (s fr) ;;
       p1 <- pow v e ;;
       p2 <- pow v 2 ;;
       q <- ndiv (lift2 Qmult (Float c) p2) (f * (1 - v)) ;;
       p3 <- pow v (inject_Z (n fr - 1)) ;;
       p4 <- pow v (inject_Z (n fr)) ;;
       Ok (lift2 Qminus
             (lift2 Qmult p1
                (lift2 Qplus
                   (lift2 Qplus (Float (d1 fr + d2 fr * v))
                      (lift2 Qmult q (lift2 Qminus (Float 1) p3)))
                   (lift2 Qmult (Float 100) p4)))
             (Float P)) in
     let v0 := 1 / (1 + (5 # 100) / f) in
     v <- newton fn v0 ;;
     match v with
     | Float v =>
         i <- fdiv 1 v ;;
         Ok (Float ((i - 1) * f))
     | Complex => Ok Complex
     end
   else
     b <- fdiv (d1 fr + 100) P ;;
     e <- truediv (s fr) (r fr) ;;
     p <- pow b e ;;
     Ok (lift2 Qmult (Float f) (lift2 Qminus p (Float 1))))%result.

End Methods.

End Gilt.

(* ================================================================== *)
(** ** class IndexLinkedGilt(Gilt) *)

(** Modelled from the spec: the class of [self.rpi_series] is not among
    the sources; section 3 gives its interface and the series itself is
    an input of the engine.  [extrapolate_from_index] fails on a month
    that is missing from the series. *)
Record RPISeries : Type := mkRPISeries
  { lookup_index : date -> Z;
    extrapolate_from_index : Z -> option Q -> result Q;
    last_date : date }.

Record IndexLinkedGilt : Type := mkIndexLinkedGilt
  { base : Gilt;
    base_rpi : Q;
    rpi_series : RPISeries }.

Module IndexLinkedGilt.

Section Methods.

Context {calendar : BusinessCalendar}.

(** Default inflation assumption for estimating future cash flows. *)
Definition inflation_rate : Q := 3 # 100.

(** [self.lag], set by the constructor. *)
Definition lag (self : IndexLinkedGilt) : Z :=
  if (issue_date (base self) >=? mkdate 2005 9 22)%date then 3%Z else 8%Z.

Definition ref_rpi (self : IndexLinkedGilt) (settlement_date : date)
    (inflation_rate : option Q) : result Q :=
  (ref_rpi <-
     (if (lag self =? 3)%Z then
        let d := settlement_date in
        let month_idx := lookup_index (rpi_series self) d in
        let month_idx := (month_idx - lag self)%Z in
        weight <- truediv (day d - 1) (days_in_month (year d) (month d)) ;;
        assert (Qle_bool 0 weight && negb (Qle_bool 1 weight)) ;;;
        rpi0 <- extrapolate_from_index (rpi_series self) month_idx inflation_rate ;;
        rpi1 <- extrapolate_from_index (rpi_series self) (month_idx + 1) inflation_rate ;;
        Ok (rpi0 + weight * (rpi1 - rpi0))
      else
        assert (lag self =? 8)%Z ;;;
        '(_, d) <- Gilt.prev_next_coupon_date (base self) settlement_date ;;
        let month_idx := lookup_index (rpi_series self) d in
        let month_idx := (month_idx - lag self)%Z in
        extrapolate_from_index (rpi_series self) month_idx inflation_rate) ;;
   Ok (round ref_rpi 5))%result.

(** "When does the redemption payment become known?" *)
Definition fixed_date (self : IndexLinkedGilt) (date : Calendar.date)
    : result Calendar.date :=
  (d <- replace date None None (Some 1%Z) ;;
   if (lag self =? 3)%Z then
     if (day date >? 1)%Z then Ok (shift_month d (-2))
     else Ok (shift_month d (-3))
   else
     assert (lag self =? 8)%Z ;;;
     Ok (shift_month d (-8)))%result.

Definition redemption_fixed (self : IndexLinkedGilt) : result date :=
  fixed_date self (maturity (base self)).

Definition is_fixed (self : IndexLinkedGilt) (date : Calendar.date)
    : result bool :=
  (fixed <- fixed_date self date ;;
   Ok (last_date (rpi_series self) >=? fixed)%date)%result.

Definition is_redemption_fixed (self : IndexLinkedGilt) : result bool :=
  is_fixed self (maturity (base self)).

Definition index_ratio (self : IndexLinkedGilt) (settlement_date : date)
    (inflation_rate' : option Q) : result Q :=
  (let inflation_rate' :=
     match inflation_rate' with
     | None => inflation_rate
     | Some rate => rate
     end in
   ref <- ref_rpi self settlement_date (Some inflation_rate') ;;
   index_ratio <- fdiv ref (base_rpi self) ;;
   if (lag self =? 3)%Z then Ok (round index_ratio 5) else Ok index_ratio)%result.

Definition accrued_interest (self : IndexLinkedGilt) (settlement_date : date)
    : result Q :=
  (accrued_interest <- Gilt.accrued_interest (base self) settlement_date ;;
   index_ratio <- index_ratio self settlement_date None ;;
   Ok (accrued_interest * index_ratio))%result.

Definition dirty_price (self : IndexLinkedGilt) (clean_price : Q)
    (settlement_date : date) : result Q :=
  (clean_price <-
     (if (lag self =? 3)%Z then
        index_ratio <- index_ratio self settlement_date None ;;
        Ok (clean_price * index_ratio)
      else Ok clean_price) ;;
   a <- accrued_interest self settlement_date ;;
   Ok (clean_price + a))%result.

Definition clean_price (self : IndexLinkedGilt) (dirty_price : Q)
    (settlement_date : date) : result Q :=
  (a <- accrued_interest self settlement_date ;;
   let clean_price := dirty_price - a in
   if (lag self =? 3)%Z then
     index_ratio <- index_ratio self settlement_date None ;;
     fdiv clean_price index_ratio
   else Ok clean_price)%result.

(** The body of the generator [cash_flows], run over the conventional
    cash flows. *)
Fixpoint index_flows (self : IndexLinkedGilt) (inflation_rate : Q)
    (flows : list (date * Q)) : result (list (date * Q)) :=
  match flows with
  | [] => Ok []
  | (date, value) :: flows =>
      (index_ratio <- index_ratio self date (Some inflation_rate) ;;
       let value :=
         round (value * index_ratio)
           (if (year (issue_date (base self)) >=? 2002)%Z then 6 else 4) in
       rest <- index_flows self inflation_rate flows ;;
       Ok ((date, value) :: rest))%result
  end.

Definition cash_flows (self : IndexLinkedGilt) (settlement_date : date)
    (inflation_rate' : option Q) : result (list (date * Q)) :=
  (let inflation_rate' :=
     match inflation_rate' with
     | None => inflation_rate
     | Some rate => rate
     end in
   flows <- Gilt.cash_flows (base self) settlement_date ;;
   index_flows self inflation_rate' flows)%result.

End Methods.

End IndexLinkedGilt.

(** A gilt of the issued universe: an instance of either class.  Method
    calls dispatch on the class. *)
Inductive AnyGilt : Type :=
| Conventional (g : Gilt)
| IndexLinked (g : IndexLinkedGilt).

Section Dispatch.

Context {calendar : BusinessCalendar}.

Definition gilt_base (g : AnyGilt) : Gilt :=
  match g with
  | Conventional g => g
  | IndexLinked g => base g
  end.

Definition accrued_interest (g : AnyGilt) (settlement_date : date) : result Q :=
  match g with
  | Conventional g => Gilt.accrued_interest g settlement_date
  | IndexLinked g => IndexLinkedGilt.accrued_interest g settlement_date
  end.

Definition dirty_price (g : AnyGilt) (clean_price : Q) (settlement_date : date)
    : result Q :=
  match g with
  | Conventional g => Gilt.dirty_price g clean_price settlement_date
  | IndexLinked g => IndexLinkedGilt.dirty_price g clean_price settlement_date
  end.

Definition clean_price (g : AnyGilt) (dirty_price : Q) (settlement_date : date)
    : result Q :=
  match g with
  | Conventional g => Gilt.clean_price g dirty_price settlement_date
  | IndexLinked g => IndexLinkedGilt.clean_price g dirty_price settlement_date
  end.

End Dispatch.

Local Close Scope Q_scope.

(* ================================================================== *)
(** ** class Issued *)

(** The class attribute [type_]. *)
Definition type_ (g : AnyGilt) : string :=
  match g with
  | Conventional _ => "Conventional"%string
  | IndexLinked _ => "Index-linked"%string
  end.

Module Issued.

Section Methods.

Context {calendar : BusinessCalendar}.

(** The table [__types]. *)
Definition types (index_linked : option bool) : list string :=
  match index_linked with
  | Some false => ["Conventional"%string]
  | Some true => ["Index-linked"%string]
  | None => ["Conventional"%string; "Index-linked"%string]
  end.

(** The generator [filter], run to its end over [self.all]. *)
Fixpoint filter (all : list AnyGilt) (index_linked : option bool)
    (settlement_date : option date) : result (list AnyGilt) :=
  match all with
  | [] => Ok []
  | g :: all =>
      if match settlement_date with
         | Some settlement_date =>
             (settlement_date >? Gilt.ex_dividend_date (maturity (gilt_base g)))%date
         | None => false
         end
      then filter all index_linked settlement_date
      else
        (fixed <- match g with
                  | IndexLinked il => IndexLinkedGilt.is_redemption_fixed il
                  | Conventional _ => Ok false
                  end ;;
         let type_ := if fixed : bool then "Conventional"%string else type_ g in
         if negb (existsb (String.eqb type_) (types index_linked))
         then filter all index_linked settlement_date
         else
           rest <- filter all index_linked settlement_date ;;
           Ok (g :: rest))%result
  end.

End Methods.

End Issued.

(* ================================================================== *)
(** ** Events of [BondLadder.solve] *)

(** [enum.IntEnum("EventKind", [...])]: the members are numbered from 1. *)
Inductive EventKind : Type :=
| CASH_FLOW
| CONSUMPTION
| TAX_YEAR_END
| TAX_PAYMENT.

Definition EventKind_value (k : EventKind) : Z :=
  match k with
  | CASH_FLOW => 1
  | CONSUMPTION => 2
  | TAX_YEAR_END => 3
  | TAX_PAYMENT => 4
  end.

Module BondLadder.

Section Events.

(** The operand of an event is an amount or a pair of LP expressions;
    the ordering of events does not look at it. *)
Variable Operand : Type.

Record Event : Type := mkEvent
  { date : Calendar.date;
    description : string;
    kind : EventKind;
    operand : Operand }.

(** [operator.attrgetter("date", "kind")] *)
Definition key (ev : Event) : Calendar.date * EventKind := (date ev, kind ev).

(** [<] on the key tuples: the first components decide unless equal. *)
Definition key_ltb (a b : Calendar.date * EventKind) : bool :=
  if toordinal (fst a) =? toordinal (fst b)
  then EventKind_value (snd a) <? EventKind_value (snd b)
  else (fst a <? fst b)%date.

(** [list.sort(key=...)] is a stable sort that compares keys with [<]:
    an element is placed before the first one whose key is not smaller,
    so events with equal keys keep their order. *)
Fixpoint insert (ev : Event) (events : list Event) : list Event :=
  match events with
  | [] => [ev]
  | x :: rest =>
      if key_ltb (key x) (key ev) then x :: insert ev rest
      else ev :: events
  end.

Definition sort (events : list Event) : list Event :=
  fold_right insert [] events.

(** The events in the order in which the main loop of [solve]
    processes them ([events.sort(...)] followed by [for ev in events]). *)
Definition processing_order (events : list Event) : list Event :=
  sort events.

End Events.

Arguments mkEvent {Operand} _ _ _ _.
Arguments date {Operand} _.
Arguments description {Operand} _.
Arguments kind {Operand} _.
Arguments operand {Operand} _.
Arguments key {Operand} _.
Arguments insert {Operand} _ _.
Arguments sort {Operand} _.
Arguments processing_order {Operand} _.

End BondLadder.

(* ================================================================== *)
(** ** [schedule] and the body of [BondLadder.solve] *)

(** [range(count)] *)
Definition range (count : Z) : list Z :=
  map Z.of_nat (seq 0 (Z.to_nat count)).

(** [schedule(count, amount, shift, start)]; [today] is the date that
    [datetime.datetime.now(datetime.timezone.utc).date()] returns. *)
Definition schedule (today : date) (count : Z) (amount : Q)
    (shift : date -> Z -> date) (start : option date) : list (date * Q) :=
  match start with
  | None =>
      let start := today in
      map (fun i => (shift start (1 + i), amount)) (range count)
  | Some start =>
      map (fun i => (shift start i, amount)) (range count)
  end.

(** The parts of [solve] that do not go through the solver: the first
    statements, the tax events and the main loop over the events.  The
    linear program is the missing library [pulp]; its expressions are
    an abstract type with the operations that [solve] applies. *)
Module Solve.

(** The first statements of [solve]. *)
Definition yearly_consumption (today : date) (schedule : list (date * Q))
    : result Q :=
  match schedule with
  | [] => Raise IndexError
  | (date, amount) :: _ =>
      fdiv (amount * (36525 # 100)) (inject_Z (days date today))
  end.

(** [f'{n:d}'] and [f'{n:02d}'] *)
Definition str (n : Z) : string := DecimalString.NilZero.string_of_int (Z.to_int n).

Definition str02 (n : Z) : string :=
  let s := str n in
  if (String.length s <? 2)%nat then ("0" ++ s)%string else s.

Section TaxEvents.

Variable Operand : Type.

(** The operand [None] of a tax event. *)
Variable none : Operand.

Definition tax_year (d : date) : string :=
  (str (year d - 1) ++ "/" ++ str02 (year d mod 100))%string.

(** [while d < today: d = d.replace(year=d.year + 1)]; a
    [RuntimeError] when the loop bound of the model is exhausted (never
    the case). *)
Fixpoint first_tax_year_end (fuel : nat) (today d : date) : result date :=
  if (d <? today)%date then
    match fuel with
    | O => Raise RuntimeError
    | S fuel =>
        (d <- replace d (Some (year d + 1)) None None ;;
         first_tax_year_end fuel today d)%result
    end
  else Ok d.

(** The [while True] loop that appends the two events of each tax
    year. *)
Fixpoint tax_year_loop (fuel : nat) (last_consuption d : date)
    (events : list (BondLadder.Event Operand))
    : result (list (BondLadder.Event Operand)) :=
  (let tax_year := tax_year d in
   let events :=
     events ++ [BondLadder.mkEvent d ("Tax year " ++ tax_year ++ " end")
                  TAX_YEAR_END none] in
   d2 <- replace d (Some (year d + 1)) (Some 1) (Some 31) ;;
   let events :=
     events ++ [BondLadder.mkEvent d2 ("Tax for year " ++ tax_year)
                  TAX_PAYMENT none] in
   if (d >=? last_consuption)%date then Ok events
   else
     match fuel with
     | O => Raise RuntimeError
     | S fuel =>
         d <- replace d (Some (year d + 1)) None None ;;
         tax_year_loop fuel last_consuption d events
     end)%result.

(** "Add tax events". *)
Definition tax_events (marginal_income_tax : Q) (today last_consuption : date)
    (events : list (BondLadder.Event Operand))
    : result (list (BondLadder.Event Operand)) :=
  (if negb (Qeq_bool marginal_income_tax 0) then
     d <- replace today None (Some 4) (Some 5) ;;
     d <- first_tax_year_end 1 today d ;;
     tax_year_loop (Z.to_nat (year last_consuption + 1 - year d))
       last_consuption d events
   else Ok events)%result.

End TaxEvents.

Section MainLoop.

(** The amounts of the ladder are expressions of the linear program
    (numbers among them); what [solve] does with them is as follows. *)
Variable expr : Type.
Variable number : Q -> expr.
Variables add sub : expr -> expr -> expr.
Variable scale : expr -> Q -> expr.
(** [lp.LpVariable(f'balance_{date:%Y%m%d}_{n}', 0)] *)
Variable balance_variable : date -> nat -> expr.

(** The operand of an event, read as the main loop reads it: the
    amount of a withdrawal, the pair [incoming, income] of a cash
    flow. *)
Variable Operand : Type.
Variable amount_of : Operand -> option expr.
Variable pair_of : Operand -> option expr * option expr.

Variables marginal_income_tax interest_rate : Q.
Variable last_consuption : date.

(** The class [CashFlow]; a field left at [math.nan] is [None]. *)
Record CashFlow : Type := mkCashFlow
  { cf_date : date;
    cf_description : string;
    cf_incoming : option expr;
    cf_outgoing : option expr;
    cf_balance : option expr;
    cf_income : option expr }.

(** The variables of the main loop, and the constraints added to the
    problem. *)
Record Ledger : Type := mkLedger
  { balance : expr;
    accrued_income : expr;
    tax_due : option expr;
    prev_date : date;
    cash_flows : list CashFlow;
    constraints : list (expr * expr) }.

Definition is_none {A : Type} (x : option A) : bool :=
  match x with None => true | Some _ => false end.

(** "Accumulate interest on cash balance". *)
Definition accumulate_interest (st : Ledger) (ev : BondLadder.Event Operand)
    : result Ledger :=
  (if negb (toordinal (BondLadder.date ev) =? toordinal (prev_date st)) then
     assert (BondLadder.date ev >=? prev_date st)%date ;;;
     let st :=
       if negb (Qeq_bool interest_rate 0)
          && (BondLadder.date ev <=? last_consuption)%date
       then
         let pro_rata_interest_rate :=
           (interest_rate
            * inject_Z (days (BondLadder.date ev) (prev_date st))
            / (36525 # 100))%Q in
         let interest := scale (balance st) pro_rata_interest_rate in
         let balance := scale (balance st) (1 + pro_rata_interest_rate)%Q in
         mkLedger balance (add (accrued_income st) interest) (tax_due st)
           (prev_date st)
           (cash_flows st
            ++ [mkCashFlow (BondLadder.date ev) "Interest" (Some interest)
                  None (Some balance) (Some interest)])
           (constraints st)
       else st in
     Ok (mkLedger (balance st) (accrued_income st) (tax_due st)
           (BondLadder.date ev) (cash_flows st) (constraints st))
   else Ok st)%result.

(** The end of the loop body: the row of the event. *)
Definition book (st : Ledger) (ev : BondLadder.Event Operand)
    (incoming outgoing income : option expr) : Ledger :=
  let balance1 :=
    match incoming with
    | Some incoming => add (balance st) incoming
    | None => balance st
    end in
  let '(balance2, constraints2) :=
    match outgoing with
    | Some outgoing =>
        let v := balance_variable (BondLadder.date ev)
                   (List.length (cash_flows st)) in
        (v, constraints st ++ [(v, sub balance1 outgoing)])
    | None => (balance1, constraints st)
    end in
  mkLedger balance2 (accrued_income st) (tax_due st) (prev_date st)
    (cash_flows st
     ++ [mkCashFlow (BondLadder.date ev) (BondLadder.description ev)
           incoming outgoing (Some balance2) income])
    constraints2.

(** The body of [for ev in events]. *)
Definition process (st : Ledger) (ev : BondLadder.Event Operand)
    : result Ledger :=
  (st <- accumulate_interest st ev ;;
   match BondLadder.kind ev with
   | CONSUMPTION =>
       Ok (book st ev None (amount_of (BondLadder.operand ev)) None)
   | CASH_FLOW =>
       let '(incoming, income) := pair_of (BondLadder.operand ev) in
       let accrued_income :=
         match income with
         | Some income => add (accrued_income st) income
         | None => accrued_income st
         end in
       Ok (book (mkLedger (balance st) accrued_income (tax_due st)
                   (prev_date st) (cash_flows st) (constraints st))
             ev incoming None income)
   | TAX_YEAR_END =>
       assert (is_none (tax_due st)) ;;;
       Ok (mkLedger (balance st) (number 0)
             (Some (scale (accrued_income st) marginal_income_tax))
             (prev_date st) (cash_flows st) (constraints st))
   | TAX_PAYMENT =>
       assert (negb (is_none (tax_due st))) ;;;
       Ok (book (mkLedger (balance st) (accrued_income st) None
                   (prev_date st) (cash_flows st) (constraints st))
             ev None (tax_due st) None)
   end)%result.

Fixpoint main_loop (st : Ledger) (events : list (BondLadder.Event Operand))
    : result Ledger :=
  match events with
  | [] => Ok st
  | ev :: events => (st <- process st ev ;; main_loop st events)%result
  end.


End MainLoop.

Arguments mkCashFlow {expr} _ _ _ _ _ _.
Arguments cf_date {expr} _.
Arguments cf_description {expr} _.
Arguments cf_incoming {expr} _.
Arguments cf_outgoing {expr} _.
Arguments cf_balance {expr} _.
Arguments cf_income {expr} _.
Arguments mkLedger {expr} _ _ _ _ _ _.
Arguments balance {expr} _.
Arguments accrued_income {expr} _.
Arguments tax_due {expr} _.
Arguments prev_date {expr} _.
Arguments cash_flows {expr} _.
Arguments constraints {expr} _.

End Solve.

(* ================================================================== *)
(** ** Statements of the specification *)

Section SpecDefinitions.

Context {calendar : BusinessCalendar}.

(** Well-formed inputs: every date is a [datetime.date]. *)
Definition valid_gilt (g : Gilt) : Prop :=
  valid_date (maturity g) /\ valid_date (issue_date g).

Definition in_life (g : Gilt) (settlement_date : date) : Prop :=
  (toordinal (issue_date g) <= toordinal settlement_date <= toordinal (maturity g)).

(** The candidate coupon dates [shift_month(maturity, -6k)]. *)
Definition candidate (g : Gilt) (k : nat) : date :=
  shift_month (maturity g) (-6 * Z.of_nat k).

(** [K] is the index at which the candidates stop being coupon dates to
    come: every earlier candidate is on or after settlement and at
    least [min_coupon_days] after issue, and candidate [K] is before
    settlement or closer to issue than that. *)
Definition first_stop (g : Gilt) (settlement_date : date) (K : nat) : Prop :=
  (forall k, (k < K)%nat ->
     toordinal settlement_date <= toordinal (candidate g k) /\
     Gilt.min_coupon_days <= days (candidate g k) (issue_date g)) /\
  (toordinal (candidate g K) < toordinal settlement_date \/
   days (candidate g K) (issue_date g) < Gilt.min_coupon_days).

(** The coupon dates to come for a stop at [K], in ascending order. *)
Definition coupons_to_come (g : Gilt) (K : nat) : list date :=
  rev (map (candidate g) (seq 0 K)).


(** The ex-dividend date of section 4.C: the 7th previous business day
    before the coupon. *)
Fixpoint previous_business_days (n : nat) (d : date) : date :=
  match n with
  | O => d
  | S n => previous_business_days n (prev_business_day d)
  end.

Definition xd_date (coupon_date : date) : date :=
  previous_business_days 7 coupon_date.


(** The undiscounted sum of the amounts of a list of cash flows. *)
Definition total (flows : list (date * Q)) : Q :=
  fold_right (fun flow acc => (snd flow + acc)%Q) 0%Q flows.









(** The reading of the coupon schedule in which the previous coupon
    date is the last candidate not after settlement and the coupons to
    come are strictly after settlement. *)
Definition last_not_after (g : Gilt) (settlement prev_coupon : date) : Prop :=
  (exists k, prev_coupon = candidate g k) /\
  toordinal prev_coupon <= toordinal settlement /\
  forall k, toordinal (candidate g k) <= toordinal settlement ->
            toordinal (candidate g k) <= toordinal prev_coupon.

Definition strictly_after (settlement : date) (dates : list date) : Prop :=
  Forall (fun d => toordinal settlement < toordinal d) dates.

Definition ascending (dates : list date) : Prop :=
  StronglySorted (fun a b => toordinal a < toordinal b) dates.

Definition coupon_dates_as_written (g : Gilt) (settlement : date) : Prop :=
  exists prev_coupon next_coupons,
    Gilt.coupon_dates g settlement = Ok (prev_coupon, next_coupons) /\
    last_not_after g settlement prev_coupon /\
    strictly_after settlement next_coupons /\
    ascending next_coupons.

(** The order of the keys [(date, kind)]. *)
Definition key_lex_le {Operand : Type} (a b : BondLadder.Event Operand) : Prop :=
  toordinal (BondLadder.date a) < toordinal (BondLadder.date b) \/
  (toordinal (BondLadder.date a) = toordinal (BondLadder.date b) /\
   EventKind_value (BondLadder.kind a) <= EventKind_value (BondLadder.kind b)).

(** A calendar in which the previous business day of a date is a date
    before it. *)
Definition calendar_goes_back : Prop :=
  forall d, valid_date d ->
    valid_date (prev_business_day d) /\
    toordinal (prev_business_day d) < toordinal d.

(** A regular coupon on a date. *)
Definition coupon_flow (g : Gilt) (d : date) : date * Q := (d, (coupon g / 2)%Q).

(** The months between a date and the month whose RPI fixes it. *)
Definition fixing_months (il : IndexLinkedGilt) (d : date) : Z :=
  if IndexLinkedGilt.lag il =? 3 then (if day d >? 1 then 2 else 3) else 8.

(** Modelled from the spec: the RPI series of section 3.  The index of a
    date counts its months; a month up to the last one published has a
    stored value, whatever the inflation rate; later months always
    extrapolate. *)
Definition monthly_series (series : RPISeries) : Prop :=
  valid_date (last_date series) /\
  (exists origin, forall d, lookup_index series d = month_index d - origin) /\
  (forall i rate rate',
     i <= lookup_index series (last_date series) ->
     extrapolate_from_index series i rate = extrapolate_from_index series i rate') /\
  (forall i rate,
     lookup_index series (last_date series) < i ->
     exists v, extrapolate_from_index series i rate = Ok v).

(** A settlement date at which a gilt can still be traded. *)
Definition tradable (settlement_date : option date) (g : AnyGilt) : Prop :=
  match settlement_date with
  | Some s =>
      toordinal s <= toordinal (Gilt.ex_dividend_date (maturity (gilt_base g)))
  | None => True
  end.

Definition maturity_le (a b : AnyGilt) : Prop :=
  toordinal (maturity (gilt_base a)) <= toordinal (maturity (gilt_base b)).

(** [selected] is [all] with some of its elements left out: the
    elements that remain are in the order, and with the repetitions, of
    [all]. *)
Inductive kept_in_order {A : Type} : list A -> list A -> Prop :=
| kept_nil : kept_in_order [] []
| kept_skip (x : A) (selected all : list A) :
    kept_in_order selected all -> kept_in_order selected (x :: all)
| kept_take (x : A) (selected all : list A) :
    kept_in_order selected all -> kept_in_order (x :: selected) (x :: all).

(** The type under which [filter] selects a gilt: an index-linked gilt
    whose redemption is fixed counts as conventional. *)
Definition selected_as (index_linked : option bool) (g : AnyGilt) : Prop :=
  match index_linked with
  | None => True
  | Some false =>
      match g with
      | Conventional _ => True
      | IndexLinked il => IndexLinkedGilt.is_redemption_fixed il = Ok true
      end
  | Some true =>
      match g with
      | Conventional _ => False
      | IndexLinked il => IndexLinkedGilt.is_redemption_fixed il = Ok false
      end
  end.

(** An index-linked gilt whose redemption payment is known. *)
Definition redemption_known (g : AnyGilt) : Prop :=
  match g with
  | IndexLinked il => IndexLinkedGilt.is_redemption_fixed il = Ok true
  | Conventional _ => False
  end.

Definition valid_maturity (g : AnyGilt) : Prop :=
  valid_date (maturity (gilt_base g)).

End SpecDefinitions.

Section LadderDefinitions.

Context {Operand : Type}.

Definition april_5 (y : Z) : date := mkdate y 4 5.









End LadderDefinitions.

(* ================================================================== *)
(** ** A concrete calendar and a concrete RPI series, to run the model *)

Module Examples.

Definition prev_day (d : date) : date :=
  if 1 <? day d then mkdate (year d) (month d) (day d - 1)
  else
    let p := shift_month (mkdate (year d) (month d) 1) (-1) in
    mkdate (year p) (month p) (days_in_month (year p) (month p)).

(** [date.weekday()]: Monday is 0. *)
Definition weekday (d : date) : Z := (toordinal d + 6) mod 7.

(** The previous business day of a calendar without bank holidays
    (none falls in the days that the examples below go through). *)
Definition prev_weekday (d : date) : date :=
  let d1 := prev_day d in
  if weekday d1 <? 5 then d1
  else
    let d2 := prev_day d1 in
    if weekday d2 <? 5 then d2 else prev_day d2.

Definition weekdays : BusinessCalendar :=
  {| prev_business_day := prev_weekday |}.

(** A power that is exact on integral exponents, with the outcomes of
    the float power that are no float, and a root finder that never
    converges. *)
Definition int_pow (x e : Q) : power :=
  if Qlt_le_dec x 0 then
    if Qeq_bool (inject_Z (Qfloor e)) e
    then PowFloat (Qpower x (Qfloor e))
    else PowComplex
  else if Qeq_bool x 0 && negb (Qle_bool 0 e) then PowZeroDivisionError
  else
    let z := Qpower x (Qfloor e) in
    if Qle_bool (inject_Z (2 ^ 1024)) z then PowOverflowError else PowFloat z.

Definition prims : FloatPrims :=
  {| fpow := int_pow; newton := fun _ _ => Raise RuntimeError |}.

(** An RPI series that is flat at [level]. *)
Definition flat_rpi (level : Q) : RPISeries :=
  {| lookup_index := month_index;
     extrapolate_from_index := fun _ _ => Ok level;
     last_date := mkdate 2023 10 1 |}.

(** 0 1/4% Treasury Gilt 2025. *)
Definition TN25 : Gilt :=
  {| name := "0 1/4% Treasury Gilt 2025"; isin := "GB00BLPK7110";
     coupon := 1 # 4;
     maturity := mkdate 2025 1 31; issue_date := mkdate 2023 6 5 |}.

(** A gilt that lives less than [min_coupon_days]. *)
Definition short_lived : Gilt :=
  {| name := "1% Treasury Gilt 2024"; isin := "GB0000000001";
     coupon := 1;
     maturity := mkdate 2024 1 31; issue_date := mkdate 2024 1 2 |}.

(** 0 1/8% Index-linked Treasury Gilt 2068 (3-month lag), over a flat
    RPI series one and a half times its base RPI. *)
Definition linker_2068 : IndexLinkedGilt :=
  {| base :=
       {| name := "0 1/8% Index-linked Treasury Gilt 2068";
          isin := "GB00BDX8CX86"; coupon := 1 # 8;
          maturity := mkdate 2068 3 22; issue_date := mkdate 2013 10 22 |};
     base_rpi := 200;
     rpi_series := flat_rpi 300 |}.

Definition d_2023_12_01 : date := mkdate 2023 12 1.
Definition d_2024_07_31 : date := mkdate 2024 7 31.
Definition d_2024_10_31 : date := mkdate 2024 10 31.
Definition d_2024_01_10 : date := mkdate 2024 1 10.

(** Two events of a solve that fall on the same day. *)
Definition withdrawal : BondLadder.Event Q :=
  BondLadder.mkEvent (mkdate 2025 1 31) "Withdrawal" CONSUMPTION 10000%Q.

Definition coupon_event : BondLadder.Event Q :=
  BondLadder.mkEvent (mkdate 2025 1 31) "Coupon" CASH_FLOW (1 # 8)%Q.

(** A gilt first issued on one of its quasi-coupon dates. *)
Definition issued_on_coupon_date : Gilt :=
  {| name := "4% Treasury Gilt 2025"; isin := "GB0000000002";
     coupon := 4;
     maturity := mkdate 2025 1 31; issue_date := mkdate 2023 7 31 |}.

(** A gilt with a short first dividend period. *)
Definition short_first_period : Gilt :=
  {| name := "2% Treasury Gilt 2025"; isin := "GB0000000003";
     coupon := 2;
     maturity := mkdate 2025 1 31; issue_date := mkdate 2023 8 15 |}.

Definition d_2023_12_15 : date := mkdate 2023 12 15.

(** The issued gilts of the examples, by maturity. *)
Definition issued : list AnyGilt :=
  [Conventional TN25; IndexLinked linker_2068].

End Examples.

(* ================================================================== *)
(** ** Calendar lemmas *)

Section CalendarFacts.

Lemma days_before_year_succ (y : Z) :
  days_before_year (y + 1) =
  days_before_year y + 365 + (if is_leap y then 1 else 0).
Proof.
  unfold days_before_year, is_leap.
  replace (y + 1 - 1) with y by lia.
  destruct (y mod 4 =? 0) eqn:E4; destruct (y mod 100 =? 0) eqn:E100;
    destruct (y mod 400 =? 0) eqn:E400; simpl;
    rewrite ?Z.eqb_eq, ?Z.eqb_neq in *;
    Z.div_mod_to_equations; lia.
Qed.

Lemma month_len_bounds (mi : Z) : 28 <= month_len mi <= 31.
Proof.
  unfold month_len, days_in_month.
  assert (H : 0 <= mi mod 12 < 12) by (apply Z.mod_pos_bound; lia).
  destruct (mi mod 12 + 1) as [|p|p]; try lia.
  do 4 (try destruct p as [p|p|]); try destruct (is_leap _); lia.
Qed.

Lemma month_start_succ (mi : Z) :
  month_start (mi + 1) = month_start mi + month_len mi.
Proof.
  unfold month_start, month_len.
  assert (H : 0 <= mi mod 12 < 12) by (apply Z.mod_pos_bound; lia).
  destruct (Z.eq_dec (mi mod 12) 11) as [E|E].
  - assert (Hq : (mi + 1) / 12 = mi / 12 + 1) by (Z.div_mod_to_equations; lia).
    assert (Hr : (mi + 1) mod 12 = 0) by (Z.div_mod_to_equations; lia).
    rewrite Hq, Hr, E, days_before_year_succ.
    unfold days_before_month, days_in_month.
    destruct (is_leap (mi / 12)); destruct (is_leap (mi / 12 + 1)); simpl; lia.
  - assert (Hq : (mi + 1) / 12 = mi / 12) by (Z.div_mod_to_equations; lia).
    assert (Hr : (mi + 1) mod 12 = mi mod 12 + 1) by (Z.div_mod_to_equations; lia).
    rewrite Hq, Hr.
    assert (C : mi mod 12 = 0 \/ mi mod 12 = 1 \/ mi mod 12 = 2 \/
                mi mod 12 = 3 \/ mi mod 12 = 4 \/ mi mod 12 = 5 \/
                mi mod 12 = 6 \/ mi mod 12 = 7 \/ mi mod 12 = 8 \/
                mi mod 12 = 9 \/ mi mod 12 = 10) by lia.
    unfold days_before_month, days_in_month.
    repeat (destruct C as [C|C]; [rewrite C; destruct (is_leap (mi / 12)); simpl; lia|]).
    rewrite C; destruct (is_leap (mi / 12)); simpl; lia.
Qed.

Lemma month_start_mono_nat (mi : Z) (n : nat) :
  month_start mi + 28 * Z.of_nat n <= month_start (mi + Z.of_nat n).
Proof.
  induction n as [|n IH].
  - change (Z.of_nat 0) with 0. rewrite !Z.add_0_r. lia.
  - replace (mi + Z.of_nat (S n)) with (mi + Z.of_nat n + 1) by lia.
    rewrite month_start_succ.
    pose proof (month_len_bounds (mi + Z.of_nat n)). lia.
Qed.

Lemma month_start_mono (a b : Z) :
  a <= b -> month_start a + 28 * (b - a) <= month_start b.
Proof.
  intros H.
  pose proof (month_start_mono_nat a (Z.to_nat (b - a))) as M.
  rewrite Z2Nat.id in M by lia.
  replace (a + (b - a)) with b in M by lia. exact M.
Qed.

Lemma days_in_month_bounds (y m : Z) : 28 <= days_in_month y m <= 31.
Proof.
  unfold days_in_month.
  repeat match goal with
         | |- context [match ?x with _ => _ end] => destruct x
         end; lia.
Qed.

Lemma valid_date_spec (d : date) :
  valid_date d <->
  1 <= month d <= 12 /\ 1 <= day d <= days_in_month (year d) (month d).
Proof.
  unfold valid_date, valid_dateb.
  rewrite !andb_true_iff, !Z.leb_le. tauto.
Qed.

Lemma month_index_div (d : date) :
  1 <= month d <= 12 ->
  month_index d / 12 = year d /\ month_index d mod 12 + 1 = month d.
Proof.
  unfold month_index. intros H. Z.div_mod_to_equations. lia.
Qed.

Lemma toordinal_month_start (d : date) :
  1 <= month d <= 12 ->
  toordinal d = month_start (month_index d) + day d.
Proof.
  intros H. destruct (month_index_div d H) as [Hy Hm].
  unfold toordinal, month_start. rewrite Hy, Hm. reflexivity.
Qed.

Lemma shift_month_index (d : date) (n : Z) :
  month_index (shift_month d n) = month_index d + n.
Proof.
  unfold month_index, shift_month; simpl. Z.div_mod_to_equations. lia.
Qed.

Lemma shift_month_valid (d : date) (n : Z) :
  1 <= day d -> valid_date (shift_month d n).
Proof.
  intros H. apply valid_date_spec. unfold shift_month; simpl.
  set (mi := year d * 12 + (month d - 1) + n).
  pose proof (days_in_month_bounds (mi / 12) (mi mod 12 + 1)).
  assert (0 <= mi mod 12 < 12) by (apply Z.mod_pos_bound; lia).
  lia.
Qed.

Lemma toordinal_shift_month (d : date) (n : Z) :
  toordinal (shift_month d n) =
  month_start (month_index d + n)
  + Z.min (day d) (month_len (month_index d + n)).
Proof.
  rewrite toordinal_month_start.
  - rewrite shift_month_index. reflexivity.
  - unfold shift_month; simpl.
    set (mi := year d * 12 + (month d - 1) + n).
    assert (0 <= mi mod 12 < 12) by (apply Z.mod_pos_bound; lia).
    lia.
Qed.

(** Month shifts of one date are ordered like the shifts. *)
Lemma shift_month_lt (d : date) (a b : Z) :
  1 <= day d -> a < b ->
  toordinal (shift_month d a) < toordinal (shift_month d b).
Proof.
  intros Hd Hab. rewrite !toordinal_shift_month.
  pose proof (month_len_bounds (month_index d + a)).
  pose proof (month_len_bounds (month_index d + b)).
  pose proof (month_start_succ (month_index d + a)).
  pose proof (month_start_mono (month_index d + a + 1) (month_index d + b)).
  lia.
Qed.

Lemma shift_month_0 (d : date) : valid_date d -> shift_month d 0 = d.
Proof.
  intros V. apply valid_date_spec in V. destruct V as [Hm Hd].
  destruct (month_index_div d Hm) as [Hy Hm'].
  unfold shift_month. rewrite Z.add_0_r.
  unfold month_index in Hy, Hm'. rewrite Hy, Hm'.
  rewrite Z.min_l by lia. destruct d; reflexivity.
Qed.

Lemma shift_month_before (d : date) (n : Z) :
  valid_date d -> n < 0 -> toordinal (shift_month d n) < toordinal d.
Proof.
  intros V Hn.
  rewrite <- (shift_month_0 d V) at 2.
  apply shift_month_lt; [apply valid_date_spec in V; lia | exact Hn].
Qed.

Lemma toordinal_lt_of_month (a b : date) :
  valid_date a -> valid_date b ->
  month_index a < month_index b -> toordinal a < toordinal b.
Proof.
  intros Va Vb H. apply valid_date_spec in Va, Vb.
  rewrite (toordinal_month_start a), (toordinal_month_start b) by tauto.
  pose proof (month_start_succ (month_index a)).
  pose proof (month_start_mono (month_index a + 1) (month_index b)).
  destruct (month_index_div a) as [Hy Hm]; [tauto|].
  unfold month_len in *. rewrite Hy, Hm in *. lia.
Qed.

Lemma month_len_eq (a : Z) (c : Z) :
  a mod 12 = c ->
  month_len a = days_in_month (a / 12) (c + 1).
Proof. intros <-. reflexivity. Qed.

Lemma month_len_shift (a j q c : Z) :
  (a + j) / 12 = q -> (a + j) mod 12 = c ->
  month_len (a + j) = days_in_month q (c + 1).
Proof. intros <- <-. reflexivity. Qed.

Lemma month_start_6 (a : Z) :
  month_start (a + 6) =
  month_start a + month_len a + month_len (a + 1) + month_len (a + 2)
  + month_len (a + 3) + month_len (a + 4) + month_len (a + 5).
Proof.
  replace (a + 6) with (a + 5 + 1) by lia. rewrite month_start_succ.
  replace (a + 5) with (a + 4 + 1) by lia. rewrite month_start_succ.
  replace (a + 4) with (a + 3 + 1) by lia. rewrite month_start_succ.
  replace (a + 3) with (a + 2 + 1) by lia. rewrite month_start_succ.
  replace (a + 2) with (a + 1 + 1) by lia. rewrite month_start_succ.
  rewrite month_start_succ. lia.
Qed.

Lemma leap_years_apart (y : Z) : is_leap y = true -> is_leap (y + 1) = false.
Proof.
  unfold is_leap. intros H.
  apply andb_true_iff in H. destruct H as [H _]. apply Z.eqb_eq in H.
  assert (((y + 1) mod 4 =? 0) = false) as ->; [|reflexivity].
  apply Z.eqb_neq. Z.div_mod_to_equations. lia.
Qed.

Lemma month_len_shift' (a j : Z) :
  month_len (a + j) =
  days_in_month (a / 12 + (a mod 12 + j) / 12) ((a mod 12 + j) mod 12 + 1).
Proof.
  apply month_len_shift; Z.div_mod_to_equations; lia.
Qed.

Ltac eval_month c j :=
  let q := eval vm_compute in ((c + j) / 12) in
  let r := eval vm_compute in ((c + j) mod 12 + 1) in
  change ((c + j) / 12) with q in *;
  change ((c + j) mod 12 + 1) with r in *.

Ltac half_year_case a C :=
  rewrite C in *;
  match type of C with
  | _ = ?c =>
      eval_month c 1; eval_month c 2; eval_month c 3;
      eval_month c 4; eval_month c 5; eval_month c 6
  end;
  rewrite ?Z.add_0_r in *;
  unfold days_in_month in *; simpl in *;
  destruct (is_leap (a / 12)); destruct (is_leap (a / 12 + 1));
  try (match goal with H : true = true -> _ |- _ =>
         specialize (H eq_refl); discriminate end);
  lia.

Lemma half_year_days (d : date) :
  valid_date d -> 181 <= days d (shift_month d (-6)) <= 184.
Proof.
  intros V. apply valid_date_spec in V. destruct V as [Hm Hd].
  unfold days. rewrite toordinal_shift_month, (toordinal_month_start d Hm).
  destruct (month_index_div d Hm) as [Hy Hmo].
  set (a := month_index d + -6) in *.
  replace (month_index d) with (a + 6) in * by (unfold a; lia).
  rewrite month_start_6.
  assert (Hlen : days_in_month (year d) (month d) = month_len (a + 6)).
  { unfold month_len. rewrite Hy, Hmo. reflexivity. }
  rewrite Hlen in Hd. clear Hlen Hy Hmo Hm.
  assert (H : 0 <= a mod 12 < 12) by (apply Z.mod_pos_bound; lia).
  rewrite (month_len_eq a (a mod 12) eq_refl) in *.
  rewrite !month_len_shift' in *.
  pose proof (leap_years_apart (a / 12)) as Hleap.
  clearbody a.
  assert (C : a mod 12 = 0 \/ a mod 12 = 1 \/ a mod 12 = 2 \/
              a mod 12 = 3 \/ a mod 12 = 4 \/ a mod 12 = 5 \/
              a mod 12 = 6 \/ a mod 12 = 7 \/ a mod 12 = 8 \/
              a mod 12 = 9 \/ a mod 12 = 10 \/ a mod 12 = 11) by lia.
  clear H.
  repeat (destruct C as [C|C]; [half_year_case a C|]).
  half_year_case a C.
Qed.

(** Comparing ordinals is comparing (year, month, day). *)
Lemma date_ltb_lex (a b : date) :
  valid_date a -> valid_date b -> date_ltb a b = date_ltb_fields a b.
Proof.
  intros Va Vb.
  pose proof (toordinal_lt_of_month a b Va Vb) as Hab.
  pose proof (toordinal_lt_of_month b a Vb Va) as Hba.
  pose proof Va as Va'. pose proof Vb as Vb'.
  apply valid_date_spec in Va', Vb'.
  assert (Heq : month_index a = month_index b ->
                toordinal a - toordinal b = day a - day b).
  { intros E. rewrite (toordinal_month_start a), (toordinal_month_start b) by tauto.
    rewrite E. lia. }
  unfold month_index in *. unfold date_ltb, date_ltb_fields.
  destruct (year a <? year b) eqn:E1; destruct (year a =? year b) eqn:E2;
    destruct (month a <? month b) eqn:E3; destruct (month a =? month b) eqn:E4;
    destruct (day a <? day b) eqn:E5; simpl;
    rewrite ?Z.ltb_lt, ?Z.ltb_ge, ?Z.eqb_eq, ?Z.eqb_neq in *; lia.
Qed.

End CalendarFacts.

(* ================================================================== *)
(** ** The coupon schedule *)

Section CouponDates.

Context {calendar : BusinessCalendar}.

Lemma candidate_0 (g : Gilt) :
  valid_date (maturity g) -> candidate g 0 = maturity g.
Proof. intros V. unfold candidate. simpl. apply shift_month_0, V. Qed.

Lemma candidate_valid (g : Gilt) (k : nat) :
  valid_date (maturity g) -> valid_date (candidate g k).
Proof.
  intros V. apply shift_month_valid. apply valid_date_spec in V. lia.
Qed.

Lemma candidate_lt (g : Gilt) (j k : nat) :
  valid_date (maturity g) -> (j < k)%nat ->
  toordinal (candidate g k) < toordinal (candidate g j).
Proof.
  intros V H. apply shift_month_lt; [apply valid_date_spec in V; lia | lia].
Qed.

Lemma candidate_succ (g : Gilt) (p : nat) :
  shift_month (maturity g) (-6 * (Z.of_nat p + 1)) = candidate g (S p).
Proof. unfold candidate. f_equal. lia. Qed.

Lemma candidates_snoc (g : Gilt) (p : nat) :
  map (candidate g) (seq 0 p) ++ [candidate g p] = map (candidate g) (seq 0 (S p)).
Proof. rewrite seq_S, map_app. reflexivity. Qed.

Lemma coupon_loop_S (fuel : nat) (g : Gilt) (s : date)
    (acc : list date) (prev : date) (periods : Z) :
  Gilt.coupon_loop (S fuel) g s acc prev periods =
  if days prev (issue_date g) >=? Gilt.min_coupon_days then
    if (shift_month (maturity g) (-6 * (periods + 1)) <? s)%date
    then Some (shift_month (maturity g) (-6 * (periods + 1)), acc ++ [prev])
    else Gilt.coupon_loop fuel g s (acc ++ [prev])
           (shift_month (maturity g) (-6 * (periods + 1))) (periods + 1)
  else Some (prev, acc).
Proof. reflexivity. Qed.

(** The loop, started at candidate [p] with the candidates before it
    collected, stops at the first stop and does so within the bound. *)
Lemma coupon_loop_spec (fuel : nat) (g : Gilt) (s : date) :
  valid_date (maturity g) ->
  forall p : nat,
    (Z.to_nat (days (candidate g p) (issue_date g)) < fuel)%nat ->
    toordinal s <= toordinal (candidate g p) ->
    (forall k, (k < p)%nat ->
       toordinal s <= toordinal (candidate g k) /\
       Gilt.min_coupon_days <= days (candidate g k) (issue_date g)) ->
    exists K,
      Gilt.coupon_loop fuel g s (map (candidate g) (seq 0 p))
        (candidate g p) (Z.of_nat p)
      = Some (candidate g K, map (candidate g) (seq 0 K)) /\
      first_stop g s K.
Proof.
  intros V. induction fuel as [|fuel IH]; intros p Hfuel Hs Hbefore.
  - lia.
  - rewrite coupon_loop_S, Z.geb_leb.
    destruct (Z.leb_spec Gilt.min_coupon_days (days (candidate g p) (issue_date g)))
      as [Hge|Hlt].
    + rewrite candidate_succ, candidates_snoc.
      assert (Hbefore' : forall k, (k < S p)%nat ->
                toordinal s <= toordinal (candidate g k) /\
                Gilt.min_coupon_days <= days (candidate g k) (issue_date g)).
      { intros k Hk. destruct (Nat.eq_dec k p) as [->|Hne].
        - split; assumption.
        - apply Hbefore. lia. }
      unfold date_ltb.
      destruct (Z.ltb_spec (toordinal (candidate g (S p))) (toordinal s)) as [Hbrk|Hcont].
      * exists (S p). split; [reflexivity|].
        split; [exact Hbefore' | left; exact Hbrk].
      * replace (Z.of_nat p + 1) with (Z.of_nat (S p)) by lia.
        apply IH; [|exact Hcont|exact Hbefore'].
        pose proof (candidate_lt g p (S p) V (Nat.lt_succ_diag_r p)).
        unfold days, Gilt.min_coupon_days in *. lia.
    + exists p. split; [reflexivity|].
      split; [exact Hbefore | right; exact Hlt].
Qed.

Lemma in_life_asserts (g : Gilt) (s : date) :
  in_life g s ->
  (s >=? issue_date g)%date = true /\ (s <=? maturity g)%date = true.
Proof.
  unfold in_life, date_geb, date_leb. rewrite !Z.leb_le. tauto.
Qed.

(** [coupon_dates] returns, and what it returns. *)
Lemma coupon_dates_spec (g : Gilt) (s : date) :
  valid_gilt g -> in_life g s ->
  exists K,
    Gilt.coupon_dates g s = Ok (candidate g K, coupons_to_come g K) /\
    first_stop g s K.
Proof.
  intros [Vm Vi] L.
  destruct (in_life_asserts g s L) as [A1 A2].
  unfold Gilt.coupon_dates. rewrite A1, A2. simpl bind.
  destruct (coupon_loop_spec (Gilt.coupon_fuel g) g s Vm 0) as [K [HK Hstop]].
  - rewrite candidate_0 by exact Vm. unfold Gilt.coupon_fuel. lia.
  - rewrite candidate_0 by exact Vm. apply L.
  - intros k Hk. lia.
  - exists K. split; [|exact Hstop].
    simpl in HK. rewrite candidate_0 in HK by exact Vm.
    rewrite HK. reflexivity.
Qed.

Lemma coupon_dates_in_life (g : Gilt) (s : date) (res : date * list date) :
  Gilt.coupon_dates g s = Ok res -> in_life g s.
Proof.
  unfold Gilt.coupon_dates, in_life, date_geb, date_leb.
  destruct (Z.leb_spec (toordinal (issue_date g)) (toordinal s));
    [|discriminate].
  destruct (Z.leb_spec (toordinal s) (toordinal (maturity g)));
    [|discriminate].
  intros _. lia.
Qed.

Lemma coupon_dates_inv (g : Gilt) (s prev : date) (nexts : list date) :
  valid_gilt g ->
  Gilt.coupon_dates g s = Ok (prev, nexts) ->
  exists K, prev = candidate g K /\ nexts = coupons_to_come g K /\
            first_stop g s K.
Proof.
  intros V H.
  destruct (coupon_dates_spec g s V (coupon_dates_in_life g s _ H)) as [K [HK Hstop]].
  rewrite HK in H. injection H as <- <-. exists K. auto.
Qed.

Lemma coupons_to_come_S (g : Gilt) (K : nat) :
  coupons_to_come g (S K) = candidate g K :: coupons_to_come g K.
Proof.
  unfold coupons_to_come. rewrite seq_S, map_app, rev_app_distr. reflexivity.
Qed.

Lemma prev_next_coupon_date_inv (g : Gilt) (s prev next : date) :
  valid_gilt g ->
  Gilt.prev_next_coupon_date g s = Ok (prev, next) ->
  exists K, prev = candidate g (S K) /\ next = candidate g K /\
            first_stop g s (S K).
Proof.
  intros V H. unfold Gilt.prev_next_coupon_date in H.
  destruct (Gilt.coupon_dates g s) as [[p ns]|e] eqn:E; [|discriminate].
  destruct (coupon_dates_inv g s p ns V E) as [K [-> [-> Hstop]]].
  simpl in H. destruct K as [|K]; [discriminate|].
  rewrite coupons_to_come_S in H. injection H as <- <-.
  exists K. auto.
Qed.

(** What the callers of [prev_next_coupon_date] rely on. *)
Lemma prev_next_coupon_date_facts (g : Gilt) (s prev next : date) :
  valid_gilt g ->
  Gilt.prev_next_coupon_date g s = Ok (prev, next) ->
  valid_date prev /\ valid_date next /\
  toordinal prev < toordinal next /\
  toordinal s <= toordinal next /\
  Gilt.min_coupon_days <= days next (issue_date g).
Proof.
  intros V H. pose proof V as [Vm _].
  destruct (prev_next_coupon_date_inv g s prev next V H) as [K [-> [-> [Hk _]]]].
  repeat split; try (apply candidate_valid; exact Vm).
  - apply candidate_lt; [exact Vm | lia].
  - apply (Hk K). lia.
  - apply (Hk K). lia.
Qed.

End CouponDates.

Section CouponDatesClaims.

Context {calendar : BusinessCalendar}.

Lemma coupons_to_come_In (g : Gilt) (K : nat) (d : date) :
  In d (coupons_to_come g K) <-> exists k, (k < K)%nat /\ d = candidate g k.
Proof.
  unfold coupons_to_come. rewrite <- in_rev, in_map_iff. split.
  - intros [k [<- Hk]]. apply in_seq in Hk. exists k. split; [lia | reflexivity].
  - intros [k [Hk ->]]. exists k. split; [reflexivity | apply in_seq; lia].
Qed.

Lemma coupons_to_come_ascending (g : Gilt) (K : nat) :
  valid_date (maturity g) -> ascending (coupons_to_come g K).
Proof.
  intros V. induction K as [|K IH].
  - constructor.
  - rewrite coupons_to_come_S. constructor; [exact IH|].
    apply Forall_forall. intros d Hd.
    apply coupons_to_come_In in Hd. destruct Hd as [k [Hk ->]].
    apply candidate_lt; assumption.
Qed.

Lemma first_stop_pos (g : Gilt) (s : date) (K : nat) :
  valid_date (maturity g) -> in_life g s ->
  Gilt.min_coupon_days <= days (maturity g) (issue_date g) ->
  first_stop g s K -> exists K', K = S K'.
Proof.
  intros V L Hlife [_ Hstop]. destruct K as [|K']; [|eauto].
  rewrite candidate_0 in Hstop by exact V.
  unfold in_life in L. lia.
Qed.

(** C2, as amended.  For every gilt and every settlement date within
    its life, [coupon_dates] returns the candidate
    [shift_month(maturity, -6K)] as previous coupon date and the
    candidates before index [K], in strictly ascending order, as next
    coupon dates, where [K] is the first index whose candidate is
    strictly before settlement or less than 60 days after issue.  The
    next coupon dates are thus on or after settlement (a coupon date
    equal to the settlement date is among them) and the previous coupon
    date is strictly before settlement, unless it is the first-period
    date within 60 days of issue. *)
Theorem coupon_dates_first_stop (g : Gilt) (s : date) :
  valid_gilt g -> in_life g s ->
  exists K,
    Gilt.coupon_dates g s = Ok (candidate g K, coupons_to_come g K) /\
    first_stop g s K /\
    ascending (coupons_to_come g K) /\
    (forall d, In d (coupons_to_come g K) <->
               exists k, (k < K)%nat /\ d = candidate g k).
Proof.
  intros V L. destruct (coupon_dates_spec g s V L) as [K [HK Hstop]].
  exists K.
  split; [exact HK|].
  split; [exact Hstop|].
  split; [apply coupons_to_come_ascending, V|].
  intros d. apply coupons_to_come_In.
Qed.

End CouponDatesClaims.

(* ================================================================== *)
(** ** Accrued interest and cash flows of a conventional gilt *)

Section ConventionalGilt.

Context {calendar : BusinessCalendar}.

Lemma fdiv_ok (a b : Q) : ~ (b == 0)%Q -> fdiv a b = Ok (a / b)%Q.
Proof.
  intros H. unfold fdiv. destruct (Qeq_bool b 0) eqn:E; [|reflexivity].
  apply Qeq_bool_eq in E. contradiction.
Qed.

Lemma truediv_ok (a b : Z) :
  b <> 0 -> truediv a b = Ok (inject_Z a / inject_Z b)%Q.
Proof.
  intros H. apply fdiv_ok. unfold Qeq; simpl. lia.
Qed.

Lemma total_app (a b : list (date * Q)) :
  (total (a ++ b) == total a + total b)%Q.
Proof.
  induction a as [|x a IH]; simpl.
  - ring.
  - rewrite IH. ring.
Qed.

Lemma total_coupons_nonneg (c : Q) (dates : list date) :
  (0 <= c)%Q -> (0 <= total (map (fun d => (d, c / 2)) dates))%Q.
Proof.
  intros Hc. induction dates as [|d dates IH]; simpl.
  - apply Qle_refl.
  - assert (0 <= c / 2)%Q by (apply Qle_shift_div_l; [reflexivity | lra]).
    lra.
Qed.

Lemma ratio_nonneg (a b : Z) :
  0 <= a -> 0 < b -> (0 <= inject_Z a / inject_Z b)%Q.
Proof.
  intros Ha Hb. apply Qle_shift_div_l.
  - unfold Qlt; simpl; lia.
  - unfold Qle; simpl; lia.
Qed.

Lemma scaled_coupon_nonneg (r c : Q) :
  (0 <= r)%Q -> (0 <= c)%Q -> (0 <= r * c / 2)%Q.
Proof.
  intros Hr Hc. apply Qle_shift_div_l; [reflexivity|].
  assert (0 <= r * c)%Q by (apply Qmult_le_0_compat; assumption). lra.
Qed.

Lemma period_LONG (g : Gilt) (prev : date) :
  Gilt._period g prev = LONG -> 0 < days prev (issue_date g).
Proof.
  unfold Gilt._period, date_leb, days.
  destruct (_ >=? _); [discriminate|].
  destruct (Z.leb_spec (toordinal prev) (toordinal (issue_date g)));
    [discriminate|]. lia.
Qed.

(** C6, as amended.  For every conventional gilt with a coupon that is
    not negative and a life of at least 60 days, and every settlement
    date of its life that is not after the ex-dividend date of the
    maturity, [cash_flows] returns a list of cash flows whose amounts
    sum, without discounting, to at least 100. *)
Theorem cash_flows_total (g : Gilt) (s : date) :
  valid_gilt g -> (0 <= coupon g)%Q -> in_life g s ->
  toordinal s <= toordinal (Gilt.ex_dividend_date (maturity g)) ->
  Gilt.min_coupon_days <= days (maturity g) (issue_date g) ->
  exists flows,
    Gilt.cash_flows g s = Ok flows /\ (100 <= total flows)%Q.
Proof.
  intros V Hc L Hxd Hlife. pose proof V as [Vm _].
  destruct (coupon_dates_spec g s V L) as [K [HK Hstop]].
  destruct (first_stop_pos g s K Vm L Hlife Hstop) as [K' ->].
  rewrite coupons_to_come_S in HK.
  pose proof (candidate_lt g K' (S K') Vm (Nat.lt_succ_diag_r K')) as Hlt.
  pose proof (candidate_valid g (S K') Vm) as Vp.
  pose proof (shift_month_before _ (-6) Vp ltac:(lia)) as Hpp.
  destruct Hstop as [Hk _]. destruct (Hk K' (Nat.lt_succ_diag_r K')) as [_ H60].
  unfold Gilt.min_coupon_days in H60.
  assert (Hfull : days (candidate g K') (candidate g (S K')) <> 0)
    by (unfold days; lia).
  assert (Hprev : days (candidate g (S K'))
                    (shift_month (candidate g (S K')) (-6)) <> 0)
    by (unfold days; lia).
  pose proof (total_coupons_nonneg (coupon g) (coupons_to_come g K') Hc) as Hrest.
  unfold Gilt.cash_flows.
  replace (s >? Gilt.ex_dividend_date (maturity g))%date with false
    by (unfold date_gtb, date_ltb; symmetry; apply Z.ltb_ge; exact Hxd).
  rewrite HK. cbv beta iota zeta delta [bind].
  destruct (s >? Gilt.ex_dividend_date (candidate g K'))%date.
  - eexists. split; [reflexivity|].
    rewrite !total_app. simpl. lra.
  - destruct (Gilt._period g (candidate g (S K'))) eqn:P.
    + rewrite truediv_ok by assumption.
      eexists. split; [reflexivity|].
      rewrite !total_app. simpl.
      pose proof (scaled_coupon_nonneg _ (coupon g)
                    (ratio_nonneg (days (candidate g K') (issue_date g))
                       (days (candidate g K') (candidate g (S K')))
                       ltac:(lia) ltac:(unfold days; lia)) Hc).
      lra.
    + eexists. split; [reflexivity|].
      rewrite !total_app.
      pose proof (total_coupons_nonneg (coupon g)
                    (candidate g K' :: coupons_to_come g K') Hc).
      simpl in *. lra.
    + rewrite truediv_ok by assumption.
      eexists. split; [reflexivity|].
      rewrite !total_app. simpl.
      pose proof (period_LONG g _ P) as Hlong.
      pose proof (ratio_nonneg (days (candidate g (S K')) (issue_date g))
                    (days (candidate g (S K'))
                       (shift_month (candidate g (S K')) (-6)))
                    ltac:(lia) ltac:(unfold days; lia)) as Hq.
      match type of Hq with
      | (0 <= ?q)%Q =>
          assert (Hr : (0 <= q + 1)%Q) by lra;
          pose proof (scaled_coupon_nonneg _ _ Hr Hc)
      end.
      lra.
Qed.

(** The divisors of [accrued_interest] are not zero. *)
Lemma coupon_periods_nonzero (g : Gilt) (s prev next : date) :
  valid_gilt g ->
  Gilt.prev_next_coupon_date g s = Ok (prev, next) ->
  days next prev <> 0 /\ days prev (shift_month prev (-6)) <> 0.
Proof.
  intros V E.
  destruct (prev_next_coupon_date_facts g s prev next V E)
    as [Vp [Vn [Hlt _]]].
  pose proof (shift_month_before prev (-6) Vp ltac:(lia)) as Hpp.
  unfold days. lia.
Qed.




End ConventionalGilt.

(* ================================================================== *)
(** ** Yield to maturity in the final period *)

Section YieldToMaturity.

Context {calendar : BusinessCalendar} {floats : FloatPrims}.

Lemma period_SHORT (g : Gilt) (prev : date) :
  Gilt._period g prev = SHORT -> (prev <=? issue_date g)%date = true.
Proof.
  unfold Gilt._period.
  destruct (_ >=? _); [discriminate|].
  destruct (prev <=? issue_date g)%date; [reflexivity | discriminate].
Qed.




Lemma pow_no_IndexError (x y : Q) : pow x y <> Raise IndexError.
Proof. unfold pow. destruct (fpow x y); discriminate. Qed.

Lemma bind_no_IndexError {A B : Type} (c : result A) (k : A -> result B) :
  c <> Raise IndexError -> (forall a, k a <> Raise IndexError) ->
  bind c k <> Raise IndexError.
Proof. destruct c as [a|e]; simpl; intros Hc Hk; [apply Hk | congruence]. Qed.

Lemma truediv_no_IndexError (a b : Z) : truediv a b <> Raise IndexError.
Proof. unfold truediv, fdiv. destruct (Qeq_bool _ _); discriminate. Qed.

Lemma assert_no_IndexError (b : bool) : assert b <> Raise IndexError.
Proof. destruct b; discriminate. Qed.

Ltac no_IndexError :=
  repeat first
    [ discriminate
    | apply truediv_no_IndexError
    | apply assert_no_IndexError
    | apply bind_no_IndexError; [|intros ?]
    | match goal with
      | |- context [match Gilt._period ?g ?d with _ => _ end] =>
          destruct (Gilt._period g d)
      | |- context [if ?b then _ else _] => destruct b
      | |- context [let '(_, _) := ?x in _] => destruct x
      end ].

Lemma fdiv_no_IndexError (a b : Q) : fdiv a b <> Raise IndexError.
Proof. unfold fdiv. destruct (Qeq_bool _ _); discriminate. Qed.

(** C10.  A gilt whose life is at least [min_coupon_days] = 60 days has,
    at every settlement date of its life, a next coupon date:
    [coupon_dates] returns a non-empty list of next coupon dates and
    [prev_next_coupon_date] returns its head, so that
    [accrued_interest] and [dirty_price] return a value and [ytm] does
    not raise [IndexError] (provided the root finder does not). *)
Theorem coupon_dates_nonempty (g : Gilt) (s : date) :
  valid_gilt g ->
  Gilt.min_coupon_days <= days (maturity g) (issue_date g) ->
  in_life g s ->
  (exists prev next rest,
     Gilt.coupon_dates g s = Ok (prev, next :: rest) /\
     Gilt.prev_next_coupon_date g s = Ok (prev, next)) /\
  (exists a, Gilt.accrued_interest g s = Ok a) /\
  (forall clean, exists dirty, Gilt.dirty_price g clean s = Ok dirty) /\
  Gilt.ytm_prepare g s <> Raise IndexError /\
  (forall P,
     (forall fn v0, newton fn v0 <> Raise IndexError) ->
     Gilt.ytm g P s <> Raise IndexError).
Proof.
  intros V Hlife L.
  destruct (coupon_dates_spec g s V L) as [K [HK Hstop]].
  destruct (first_stop_pos g s K (proj1 V) L Hlife Hstop) as [K' ->].
  rewrite coupons_to_come_S in HK.
  assert (HPN : Gilt.prev_next_coupon_date g s
                = Ok (candidate g (S K'), candidate g K')).
  { unfold Gilt.prev_next_coupon_date. rewrite HK. reflexivity. }
  assert (HA : exists a, Gilt.accrued_interest g s = Ok a).
  { destruct (coupon_periods_nonzero g s _ _ V HPN) as [Hfull Hprev].
    unfold Gilt.accrued_interest. rewrite HPN.
    cbv beta iota zeta delta [bind].
    destruct (Gilt._period g (candidate g (S K')));
      rewrite ?truediv_ok by assumption;
      repeat match goal with
             | |- context [if ?b then _ else _] => destruct b
             end;
      rewrite ?truediv_ok by assumption; eexists; reflexivity. }
  assert (HY : Gilt.ytm_prepare g s <> Raise IndexError).
  { unfold Gilt.ytm_prepare. rewrite HK. simpl bind. no_IndexError. }
  split; [|split; [|split; [|split]]].
  - exists (candidate g (S K')), (candidate g K'), (coupons_to_come g K').
    split; [exact HK | exact HPN].
  - exact HA.
  - intros clean. destruct HA as [a Ha].
    unfold Gilt.dirty_price. rewrite Ha. eexists. reflexivity.
  - exact HY.
  - intros P Hnewton. unfold Gilt.ytm.
    apply bind_no_IndexError; [exact HY | intros fr].
    destruct (Gilt.n fr >? 0).
    + apply bind_no_IndexError; [apply Hnewton | intros v].
      destruct v as [v|]; [|discriminate].
      apply bind_no_IndexError; [apply fdiv_no_IndexError | intros i].
      discriminate.
    + apply bind_no_IndexError; [apply fdiv_no_IndexError | intros b].
      apply bind_no_IndexError; [apply truediv_no_IndexError | intros e].
      apply bind_no_IndexError; [apply pow_no_IndexError | intros p].
      discriminate.
Qed.

End YieldToMaturity.

(* ================================================================== *)
(** ** Index-linked gilts *)

Section IndexLinked.

Context {calendar : BusinessCalendar}.

Lemma lag_cases (il : IndexLinkedGilt) :
  IndexLinkedGilt.lag il = 3 \/ IndexLinkedGilt.lag il = 8.
Proof. unfold IndexLinkedGilt.lag. destruct (_ >=? _)%date; auto. Qed.









End IndexLinked.

(* ================================================================== *)
(** ** The order of events in [BondLadder.solve] *)

Section EventOrder.

Variable Operand : Type.

Lemma key_ltb_false (a b : BondLadder.Event Operand) :
  BondLadder.key_ltb (BondLadder.key a) (BondLadder.key b) = false <->
  key_lex_le b a.
Proof.
  unfold BondLadder.key_ltb, key_lex_le, BondLadder.key, date_ltb; simpl.
  destruct (Z.eqb_spec (toordinal (BondLadder.date a))
              (toordinal (BondLadder.date b))) as [E|E].
  - rewrite Z.ltb_ge. lia.
  - rewrite Z.ltb_ge. lia.
Qed.

Lemma key_ltb_true (a b : BondLadder.Event Operand) :
  BondLadder.key_ltb (BondLadder.key a) (BondLadder.key b) = true ->
  key_lex_le a b.
Proof.
  unfold BondLadder.key_ltb, key_lex_le, BondLadder.key, date_ltb; simpl.
  destruct (Z.eqb_spec (toordinal (BondLadder.date a))
              (toordinal (BondLadder.date b))) as [E|E];
    rewrite Z.ltb_lt; lia.
Qed.

Lemma key_lex_le_trans (a b c : BondLadder.Event Operand) :
  key_lex_le a b -> key_lex_le b c -> key_lex_le a c.
Proof. unfold key_lex_le. lia. Qed.

Lemma insert_perm (ev : BondLadder.Event Operand)
    (events : list (BondLadder.Event Operand)) :
  Permutation (ev :: events) (BondLadder.insert ev events).
Proof.
  induction events as [|x rest IH]; simpl.
  - apply Permutation_refl.
  - destruct (BondLadder.key_ltb (BondLadder.key x) (BondLadder.key ev)).
    + eapply perm_trans; [apply perm_swap|]. apply perm_skip, IH.
    + apply Permutation_refl.
Qed.

Lemma insert_Forall (P : BondLadder.Event Operand -> Prop)
    (ev : BondLadder.Event Operand) (events : list (BondLadder.Event Operand)) :
  P ev -> Forall P events -> Forall P (BondLadder.insert ev events).
Proof.
  intros Hev H. eapply Permutation_Forall; [apply insert_perm|].
  constructor; assumption.
Qed.

Lemma insert_sorted (ev : BondLadder.Event Operand)
    (events : list (BondLadder.Event Operand)) :
  StronglySorted key_lex_le events ->
  StronglySorted key_lex_le (BondLadder.insert ev events).
Proof.
  induction 1 as [|x rest Hsorted IH Hx]; simpl.
  - constructor; constructor.
  - destruct (BondLadder.key_ltb (BondLadder.key x) (BondLadder.key ev)) eqn:E.
    + constructor; [exact IH|].
      apply insert_Forall; [apply key_ltb_true, E | exact Hx].
    + apply key_ltb_false in E.
      constructor; [constructor; assumption|].
      constructor; [exact E|].
      eapply Forall_impl; [|exact Hx].
      intros y Hy. eapply key_lex_le_trans; eassumption.
Qed.

Lemma sort_sorted (events : list (BondLadder.Event Operand)) :
  StronglySorted key_lex_le (BondLadder.sort events).
Proof.
  induction events as [|ev events IH]; simpl.
  - constructor.
  - apply insert_sorted, IH.
Qed.

Lemma sort_perm (events : list (BondLadder.Event Operand)) :
  Permutation events (BondLadder.sort events).
Proof.
  induction events as [|ev events IH]; simpl.
  - constructor.
  - eapply perm_trans; [apply perm_skip, IH | apply insert_perm].
Qed.

Lemma StronglySorted_nth (l : list (BondLadder.Event Operand)) :
  StronglySorted key_lex_le l ->
  forall i j a b,
    nth_error l i = Some a -> nth_error l j = Some b -> (i < j)%nat -> key_lex_le a b.
Proof.
  induction 1 as [|x rest Hsorted IH Hx]; intros i j a b Hi Hj Hij.
  - destruct i; discriminate.
  - destruct j as [|j]; [lia|]. simpl in Hj.
    destruct i as [|i]; simpl in Hi.
    + injection Hi as <-.
      rewrite Forall_forall in Hx. apply Hx. eapply nth_error_In, Hj.
    + apply (IH i j); [assumption | assumption | lia].
Qed.

(** C7.  The events of a solve are processed in the order of the
    sorted list, which is a permutation of the events sorted by the
    key (date, kind) with CASH_FLOW < CONSUMPTION < TAX_YEAR_END <
    TAX_PAYMENT; of two events on the same date, the one of the
    smaller kind is processed first. *)
Theorem events_processing_order (events : list (BondLadder.Event Operand)) :
  StronglySorted key_lex_le (BondLadder.processing_order events) /\
  Permutation events (BondLadder.processing_order events) /\
  (EventKind_value CASH_FLOW < EventKind_value CONSUMPTION
   /\ EventKind_value CONSUMPTION < EventKind_value TAX_YEAR_END
   /\ EventKind_value TAX_YEAR_END < EventKind_value TAX_PAYMENT) /\
  (forall i j e1 e2,
     nth_error (BondLadder.processing_order events) i = Some e1 ->
     nth_error (BondLadder.processing_order events) j = Some e2 ->
     BondLadder.date e1 = BondLadder.date e2 ->
     EventKind_value (BondLadder.kind e1) < EventKind_value (BondLadder.kind e2) ->
     (i < j)%nat).
Proof.
  unfold BondLadder.processing_order.
  split; [apply sort_sorted|].
  split; [apply sort_perm|].
  split; [simpl; lia|].
  intros i j e1 e2 Hi Hj Hd Hk.
  destruct (Nat.lt_ge_cases i j) as [Hlt|Hge]; [exact Hlt|exfalso].
  destruct (Nat.eq_dec i j) as [->|Hne].
  - rewrite Hi in Hj. injection Hj as <-. lia.
  - pose proof (StronglySorted_nth _ (sort_sorted events) j i e2 e1 Hj Hi
                  ltac:(lia)) as H.
    unfold key_lex_le in H. rewrite Hd in H. lia.
Qed.

End EventOrder.

(* ================================================================== *)
(** ** Dividend periods, accrued interest and cash flows *)


Ltac eval_shifted_month c j :=
  let q := eval vm_compute in ((c + j) / 12) in
  let r := eval vm_compute in ((c + j) mod 12 + 1) in
  change ((c + j) / 12) with q in *;
  change ((c + j) mod 12 + 1) with r in *.

Ltac coupon_period_case a C :=
  rewrite C in *;
  match type of C with
  | _ = ?c =>
      eval_shifted_month c 1; eval_shifted_month c 2; eval_shifted_month c 3;
      eval_shifted_month c 4; eval_shifted_month c 5; eval_shifted_month c 6
  end;
  rewrite ?Z.add_0_r in *;
  unfold days_in_month in *; simpl in *;
  destruct (is_leap (a / 12)); destruct (is_leap (a / 12 + 1));
  try (match goal with H : true = true -> _ |- _ =>
         specialize (H eq_refl); discriminate end);
  lia.

(** Two month shifts of one date that are six months apart are 181 to
    184 days apart. *)
Lemma six_months_apart (d : date) (n : Z) :
  1 <= day d <= 31 ->
  181 <= toordinal (shift_month d (n + 6)) - toordinal (shift_month d n) <= 184.
Proof.
  intros Hd. rewrite !toordinal_shift_month.
  set (a := month_index d + n).
  replace (month_index d + (n + 6)) with (a + 6) by (unfold a; lia).
  rewrite month_start_6.
  rewrite (month_len_eq a (a mod 12) eq_refl).
  rewrite !month_len_shift'.
  assert (H : 0 <= a mod 12 < 12) by (apply Z.mod_pos_bound; lia).
  pose proof (leap_years_apart (a / 12)) as Hleap.
  clearbody a.
  assert (C : a mod 12 = 0 \/ a mod 12 = 1 \/ a mod 12 = 2 \/
              a mod 12 = 3 \/ a mod 12 = 4 \/ a mod 12 = 5 \/
              a mod 12 = 6 \/ a mod 12 = 7 \/ a mod 12 = 8 \/
              a mod 12 = 9 \/ a mod 12 = 10 \/ a mod 12 = 11) by lia.
  clear H.
  repeat (destruct C as [C|C]; [coupon_period_case a C|]).
  coupon_period_case a C.
Qed.

Section CouponPeriods.
Context {calendar : BusinessCalendar}.

Lemma candidate_period (g : Gilt) (k : nat) :
  valid_date (maturity g) ->
  181 <= days (candidate g k) (candidate g (S k)) <= 184.
Proof.
  intros V. apply valid_date_spec in V. destruct V as [_ Hd].
  pose proof (days_in_month_bounds (year (maturity g)) (month (maturity g))).
  unfold days, candidate.
  replace (-6 * Z.of_nat k) with (-6 * Z.of_nat (S k) + 6) by lia.
  apply six_months_apart. lia.
Qed.

End CouponPeriods.

Section DividendPeriods.
Context {calendar : BusinessCalendar}.

(** X1.  In a calendar whose previous business day is an earlier date,
    the ex-dividend date of a coupon date (seven business days back) is
    a date at least seven days before the coupon date. *)
Theorem ex_dividend_date_before (coupon_date : date) :
  calendar_goes_back -> valid_date coupon_date ->
  valid_date (Gilt.ex_dividend_date coupon_date) /\
  toordinal (Gilt.ex_dividend_date coupon_date) + 7 <= toordinal coupon_date.
Proof.
  intros Hcal V. unfold Gilt.ex_dividend_date.
  assert (H : forall n : nat,
            valid_date (Nat.iter n prev_business_day coupon_date) /\
            toordinal (Nat.iter n prev_business_day coupon_date) + Z.of_nat n
            <= toordinal coupon_date).
  { induction n as [|n [IHv IHo]].
    - simpl. split; [exact V | lia].
    - rewrite Nat.iter_succ. destruct (Hcal _ IHv) as [Hv Ho].
      split; [exact Hv | lia]. }
  exact (H 7%nat).
Qed.

(** X2.  The previous and the next coupon date that
    [prev_next_coupon_date] returns for a settlement date are 181 to
    184 days apart. *)
Theorem coupon_period_length (g : Gilt) (s prev next : date) :
  valid_gilt g ->
  Gilt.prev_next_coupon_date g s = Ok (prev, next) ->
  181 <= days next prev <= 184.
Proof.
  intros V H. pose proof V as [Vm _].
  destruct (prev_next_coupon_date_inv g s prev next V H) as [K [-> [-> _]]].
  apply candidate_period, Vm.
Qed.

Lemma period_STANDARD (g : Gilt) (prev : date) :
  Gilt.min_coupon_days <= days prev (issue_date g) ->
  Gilt._period g prev = STANDARD.
Proof.
  intros H. unfold Gilt._period. rewrite Z.geb_leb.
  destruct (Z.leb_spec Gilt.min_coupon_days (days prev (issue_date g)));
    [reflexivity | lia].
Qed.

Lemma period_STANDARD_inv (g : Gilt) (prev : date) :
  Gilt._period g prev = STANDARD ->
  Gilt.min_coupon_days <= days prev (issue_date g).
Proof.
  unfold Gilt._period. rewrite Z.geb_leb.
  destruct (Z.leb_spec Gilt.min_coupon_days (days prev (issue_date g)));
    [auto|].
  destruct (prev <=? issue_date g)%date; discriminate.
Qed.

(** X3.  From 244 days after the issue date on, the dividend period of
    a settlement date is a standard one, and the settlement date lies
    after the previous and not after the next coupon date: the short
    and long first periods are confined to the first 243 days. *)
Theorem standard_period_after_244_days (g : Gilt) (s : date) :
  valid_gilt g -> in_life g s ->
  244 <= days s (issue_date g) ->
  exists prev next,
    Gilt.prev_next_coupon_date g s = Ok (prev, next) /\
    Gilt._period g prev = STANDARD /\
    toordinal prev < toordinal s <= toordinal next.
Proof.
  intros V L H244. pose proof V as [Vm _].
  destruct (coupon_dates_spec g s V L) as [K [HK [Hk Hstop]]].
  unfold Gilt.min_coupon_days, days, in_life in *.
  destruct K as [|K'].
  - rewrite candidate_0 in Hstop by exact Vm. lia.
  - pose proof (candidate_period g K' Vm) as Hper. unfold days in Hper.
    destruct (Hk K' (Nat.lt_succ_diag_r K')) as [Hs _].
    exists (candidate g (S K')), (candidate g K').
    split.
    { unfold Gilt.prev_next_coupon_date. rewrite HK, coupons_to_come_S.
      reflexivity. }
    split.
    { apply period_STANDARD. unfold Gilt.min_coupon_days, days. lia. }
    lia.
Qed.

(** X4.  In a standard period of a gilt with coupon >= 0 the accrued
    interest is between 0 and one dividend up to the ex-dividend date,
    and between minus one dividend and 0 after it. *)
Theorem accrued_interest_standard_bounds (g : Gilt) (s prev next : date) :
  valid_gilt g -> (0 <= coupon g)%Q ->
  Gilt.prev_next_coupon_date g s = Ok (prev, next) ->
  Gilt._period g prev = STANDARD ->
  exists a,
    Gilt.accrued_interest g s = Ok a /\
    if (s >? Gilt.ex_dividend_date next)%date
    then (- (coupon g / 2) <= a <= 0)%Q
    else (0 <= a <= coupon g / 2)%Q.
Proof.
  intros V Hc H P.
  destruct (coupon_periods_nonzero g s prev next V H) as [Hfull _].
  destruct (prev_next_coupon_date_inv g s prev next V H) as [K [Ep [En [Hk Hstop]]]].
  pose proof (period_STANDARD_inv g prev P) as H60.
  assert (Hprev : toordinal prev < toordinal s).
  { rewrite Ep in *. unfold Gilt.min_coupon_days in *.
    destruct Hstop as [Hlt|Hlt]; [exact Hlt | lia]. }
  assert (Hnext : toordinal s <= toordinal next).
  { rewrite En. apply (Hk K). lia. }
  unfold Gilt.accrued_interest. rewrite H.
  cbv beta iota zeta delta [bind]. rewrite P.
  rewrite (truediv_ok _ _ Hfull). cbv beta iota.
  set (f := (inject_Z (days s prev) / inject_Z (days next prev))%Q).
  assert (Hf : (0 <= f <= 1)%Q).
  { unfold f. split.
    - apply ratio_nonneg; unfold days; lia.
    - apply Qle_shift_div_r.
      + change 0%Q with (inject_Z 0). rewrite <- Zlt_Qlt. unfold days. lia.
      + rewrite Qmult_1_l, <- Zle_Qle. unfold days. lia. }
  assert (Hd : (0 <= coupon g / 2)%Q)
    by (apply Qle_shift_div_l; [reflexivity | lra]).
  clearbody f. set (d := (coupon g / 2)%Q) in *. clearbody d.
  assert (H1 : (0 <= f * d)%Q) by (apply Qmult_le_0_compat; lra).
  assert (H2 : (0 <= (1 - f) * d)%Q) by (apply Qmult_le_0_compat; lra).
  destruct (s >? Gilt.ex_dividend_date next)%date;
    (eexists; split; [reflexivity|]; split; lra).
Qed.

(** X5.  For settlement on a coupon date (after its ex-dividend date)
    the accrued interest is 0: the whole dividend has been rebated,
    whatever the dividend period. *)
Theorem accrued_interest_on_coupon_date (g : Gilt) (s prev next : date) :
  valid_gilt g ->
  Gilt.prev_next_coupon_date g s = Ok (prev, next) ->
  toordinal s = toordinal next ->
  toordinal (Gilt.ex_dividend_date next) < toordinal s ->
  exists a, Gilt.accrued_interest g s = Ok a /\ (a == 0)%Q.
Proof.
  intros V H Es Hxd.
  destruct (coupon_periods_nonzero g s prev next V H) as [Hfull Hpp].
  destruct (prev_next_coupon_date_facts g s prev next V H) as [_ [_ [Hlt _]]].
  assert (X1 : (s >? Gilt.ex_dividend_date next)%date = true)
    by (apply Z.ltb_lt; exact Hxd).
  assert (X2 : (s <=? Gilt.ex_dividend_date next)%date = false)
    by (apply Z.leb_gt; exact Hxd).
  assert (X3 : (s <? prev)%date = false) by (apply Z.ltb_ge; lia).
  assert (Hsame : days s prev = days next prev) by (unfold days; lia).
  assert (Hone : (inject_Z (days next prev) / inject_Z (days next prev) == 1)%Q).
  { field. unfold Qeq; simpl. lia. }
  unfold Gilt.accrued_interest. rewrite H.
  cbv beta iota zeta delta [bind].
  destruct (Gilt._period g prev).
  - rewrite X2, (truediv_ok _ _ Hfull). cbv beta iota.
    eexists. split; [reflexivity|].
    replace (days s (issue_date g) - days next (issue_date g)) with 0
      by (unfold days; lia).
    unfold Qdiv. change (inject_Z 0) with 0%Q. ring.
  - rewrite (truediv_ok _ _ Hfull), X1. cbv beta iota.
    eexists. split; [reflexivity|]. rewrite Hsame, Hone. ring.
  - rewrite X3, X2, (truediv_ok _ _ Hfull). cbv beta iota.
    eexists. split; [reflexivity|]. rewrite Hsame, Hone. ring.
Qed.

(** X6.  In a short first period, settlement on the issue date (not
    after the ex-dividend date) has accrued nothing. *)
Theorem accrued_interest_at_issue_short (g : Gilt) (s prev next : date) :
  valid_gilt g ->
  Gilt.prev_next_coupon_date g s = Ok (prev, next) ->
  Gilt._period g prev = SHORT ->
  toordinal s = toordinal (issue_date g) ->
  toordinal s <= toordinal (Gilt.ex_dividend_date next) ->
  exists a, Gilt.accrued_interest g s = Ok a /\ (a == 0)%Q.
Proof.
  intros V H P Es Hxd.
  destruct (coupon_periods_nonzero g s prev next V H) as [Hfull _].
  assert (X : (s <=? Gilt.ex_dividend_date next)%date = true)
    by (apply Z.leb_le; exact Hxd).
  unfold Gilt.accrued_interest. rewrite H.
  cbv beta iota zeta delta [bind]. rewrite P, X, (truediv_ok _ _ Hfull).
  cbv beta iota. eexists. split; [reflexivity|].
  replace (days s (issue_date g)) with 0 by (unfold days; lia).
  unfold Qdiv. change (inject_Z 0) with 0%Q. ring.
Qed.

End DividendPeriods.

Section CashFlows.
Context {calendar : BusinessCalendar}.

(** The shape of the cash flows while the redemption remains. *)
Lemma cash_flows_shape (g : Gilt) (s : date) :
  valid_gilt g -> in_life g s ->
  toordinal s <= toordinal (Gilt.ex_dividend_date (maturity g)) ->
  Gilt.min_coupon_days <= days (maturity g) (issue_date g) ->
  exists K flows,
    Gilt.prev_next_coupon_date g s = Ok (candidate g (S K), candidate g K) /\
    first_stop g s (S K) /\
    Gilt.cash_flows g s = Ok flows /\
    (((s >? Gilt.ex_dividend_date (candidate g K))%date = true /\
      flows = map (coupon_flow g) (coupons_to_come g K) ++ [(maturity g, 100%Q)])
     \/
     ((s >? Gilt.ex_dividend_date (candidate g K))%date = false /\
      exists amount,
        flows = (candidate g K, amount)
                :: map (coupon_flow g) (coupons_to_come g K)
                ++ [(maturity g, 100%Q)])).
Proof.
  intros V L Hxd Hlife. pose proof V as [Vm _].
  destruct (coupon_dates_spec g s V L) as [K [HK Hstop]].
  destruct (first_stop_pos g s K Vm L Hlife Hstop) as [K' ->].
  rewrite coupons_to_come_S in HK.
  assert (HPN : Gilt.prev_next_coupon_date g s
                = Ok (candidate g (S K'), candidate g K')).
  { unfold Gilt.prev_next_coupon_date. rewrite HK. reflexivity. }
  destruct (coupon_periods_nonzero g s _ _ V HPN) as [Hfull Hprev].
  exists K'.
  unfold Gilt.cash_flows.
  replace (s >? Gilt.ex_dividend_date (maturity g))%date with false
    by (unfold date_gtb, date_ltb; symmetry; apply Z.ltb_ge; exact Hxd).
  rewrite HK. cbv beta iota zeta delta [bind].
  destruct (s >? Gilt.ex_dividend_date (candidate g K'))%date.
  - eexists. split; [exact HPN|]. split; [exact Hstop|].
    split; [reflexivity|]. left. split; reflexivity.
  - destruct (Gilt._period g (candidate g (S K'))).
    + rewrite (truediv_ok _ _ Hfull).
      eexists. split; [exact HPN|]. split; [exact Hstop|].
      split; [reflexivity|]. right. split; [reflexivity|].
      eexists. reflexivity.
    + eexists. split; [exact HPN|]. split; [exact Hstop|].
      split; [reflexivity|]. right. split; [reflexivity|].
      eexists. reflexivity.
    + rewrite (truediv_ok _ _ Hprev).
      eexists. split; [exact HPN|]. split; [exact Hstop|].
      split; [reflexivity|]. right. split; [reflexivity|].
      eexists. reflexivity.
Qed.

(** X7.  For a gilt that lives at least 60 days and a settlement date
    not after the ex-dividend date of the maturity, [cash_flows] is not
    empty and its last entry is the redemption of 100 at maturity (the
    assertions [assert cash_flows] and [assert d == maturity] of
    [solve]); the entries before it fall on coupon dates. *)
Theorem cash_flows_end_with_redemption (g : Gilt) (s : date) :
  valid_gilt g -> in_life g s ->
  toordinal s <= toordinal (Gilt.ex_dividend_date (maturity g)) ->
  Gilt.min_coupon_days <= days (maturity g) (issue_date g) ->
  exists coupons,
    Gilt.cash_flows g s = Ok (coupons ++ [(maturity g, 100%Q)]) /\
    Forall (fun flow => exists k, fst flow = candidate g k) coupons.
Proof.
  intros V L Hxd Hlife.
  destruct (cash_flows_shape g s V L Hxd Hlife)
    as [K [flows [_ [_ [Hf [[_ ->]|[_ [amount ->]]]]]]]].
  - eexists. split; [exact Hf|].
    apply Forall_forall. intros flow Hin.
    apply in_map_iff in Hin. destruct Hin as [d [<- Hd]].
    apply coupons_to_come_In in Hd. destruct Hd as [k [_ ->]].
    exists k. reflexivity.
  - exists ((candidate g K, amount) :: map (coupon_flow g) (coupons_to_come g K)).
    split; [exact Hf|].
    constructor; [exists K; reflexivity|].
    apply Forall_forall. intros flow Hin.
    apply in_map_iff in Hin. destruct Hin as [d [<- Hd]].
    apply coupons_to_come_In in Hd. destruct Hd as [k [_ ->]].
    exists k. reflexivity.
Qed.

Lemma candidate_le_maturity (g : Gilt) (k : nat) :
  valid_date (maturity g) ->
  toordinal (candidate g k) <= toordinal (maturity g).
Proof.
  intros V. destruct k as [|k].
  - rewrite candidate_0 by exact V. lia.
  - pose proof (candidate_lt g 0 (S k) V ltac:(lia)) as H.
    rewrite candidate_0 in H by exact V. lia.
Qed.

Lemma ascending_snoc (dates : list date) (last : date) :
  ascending dates ->
  Forall (fun d => toordinal d <= toordinal last) dates ->
  StronglySorted (fun a b => toordinal a <= toordinal b) (dates ++ [last]).
Proof.
  induction 1 as [|d dates Hs IH Hd]; intros Hle; simpl.
  - constructor; constructor.
  - inversion Hle as [|? ? Hdl Hrest]; subst.
    constructor; [apply IH, Hrest|].
    apply Forall_app. split.
    + eapply Forall_impl; [|exact Hd]. simpl. intros; lia.
    + constructor; [exact Hdl | constructor].
Qed.

(** X8.  Under the same conditions the dates of [cash_flows] are in
    ascending order and lie between settlement and maturity. *)
Theorem cash_flows_dates_ordered (g : Gilt) (s : date) :
  valid_gilt g -> in_life g s ->
  toordinal s <= toordinal (Gilt.ex_dividend_date (maturity g)) ->
  Gilt.min_coupon_days <= days (maturity g) (issue_date g) ->
  exists flows,
    Gilt.cash_flows g s = Ok flows /\
    StronglySorted (fun a b => toordinal a <= toordinal b) (map fst flows) /\
    Forall (fun d => toordinal s <= toordinal d <= toordinal (maturity g))
      (map fst flows).
Proof.
  intros V L Hxd Hlife. pose proof V as [Vm _].
  destruct (cash_flows_shape g s V L Hxd Hlife)
    as [K [flows [_ [[Hk _] [Hf Hshape]]]]].
  exists flows. split; [exact Hf|].
  assert (Hdates : exists K', (K' <= S K)%nat /\
            map fst flows = coupons_to_come g K' ++ [maturity g]).
  { destruct Hshape as [[_ ->]|[_ [amount ->]]].
    - exists K. split; [lia|].
      rewrite map_app, map_map. simpl. rewrite map_id. reflexivity.
    - exists (S K). split; [lia|].
      rewrite coupons_to_come_S. simpl.
      rewrite map_app, map_map. simpl. rewrite map_id. reflexivity. }
  destruct Hdates as [K' [HK' ->]].
  split.
  - apply ascending_snoc; [apply coupons_to_come_ascending, Vm|].
    apply Forall_forall. intros d Hd.
    apply coupons_to_come_In in Hd. destruct Hd as [k [_ ->]].
    apply candidate_le_maturity, Vm.
  - apply Forall_app. split.
    + apply Forall_forall. intros d Hd.
      apply coupons_to_come_In in Hd. destruct Hd as [k [Hlt ->]].
      split; [apply (Hk k); lia | apply candidate_le_maturity, Vm].
    + constructor; [|constructor]. unfold in_life in L. lia.
Qed.

(** X9.  Under the same conditions, a purchase after the ex-dividend
    date of the next coupon receives cash flows only after that coupon
    date; up to the ex-dividend date the first cash flow is the next
    coupon. *)
Theorem cash_flows_ex_dividend (g : Gilt) (s prev next : date) :
  valid_gilt g -> in_life g s ->
  toordinal s <= toordinal (Gilt.ex_dividend_date (maturity g)) ->
  Gilt.min_coupon_days <= days (maturity g) (issue_date g) ->
  Gilt.prev_next_coupon_date g s = Ok (prev, next) ->
  exists flows,
    Gilt.cash_flows g s = Ok flows /\
    if (s >? Gilt.ex_dividend_date next)%date
    then Forall (fun flow => toordinal next < toordinal (fst flow)) flows
    else exists amount rest, flows = (next, amount) :: rest.
Proof.
  intros V L Hxd Hlife HPN. pose proof V as [Vm _].
  destruct (cash_flows_shape g s V L Hxd Hlife)
    as [K [flows [HPN' [_ [Hf Hshape]]]]].
  rewrite HPN in HPN'. injection HPN' as -> ->.
  exists flows. split; [exact Hf|].
  destruct Hshape as [[Hx ->]|[Hx [amount ->]]]; rewrite Hx.
  - assert (HK : (0 < K)%nat).
    { destruct K as [|K]; [|lia].
      rewrite candidate_0 in Hx by exact Vm.
      unfold date_gtb, date_ltb in Hx. apply Z.ltb_lt in Hx. lia. }
    apply Forall_app. split.
    + apply Forall_forall. intros flow Hin.
      apply in_map_iff in Hin. destruct Hin as [d [<- Hd]].
      apply coupons_to_come_In in Hd. destruct Hd as [k [Hlt ->]].
      simpl. apply candidate_lt; assumption.
    + constructor; [|constructor]. simpl.
      pose proof (candidate_lt g 0 K Vm HK) as H.
      rewrite candidate_0 in H by exact Vm. exact H.
  - eexists. eexists. reflexivity.
Qed.

End CashFlows.

Section Prices.
Context {calendar : BusinessCalendar}.


End Prices.

(* ================================================================== *)
(** ** The assertions of [ytm] *)


Section YtmAssertions.
Context {calendar : BusinessCalendar} {floats : FloatPrims}.

Lemma prev_next_coupon_dates (g : Gilt) (s prev next : date) :
  Gilt.prev_next_coupon_date g s = Ok (prev, next) ->
  exists rest, Gilt.coupon_dates g s = Ok (prev, next :: rest).
Proof.
  unfold Gilt.prev_next_coupon_date.
  destruct (Gilt.coupon_dates g s) as [[p [|n rest]]|e]; simpl;
    try discriminate.
  intros H. injection H as -> ->. exists rest. reflexivity.
Qed.

Lemma period_LONG_close (g : Gilt) (prev : date) :
  Gilt._period g prev = LONG ->
  days prev (issue_date g) < Gilt.min_coupon_days.
Proof.
  unfold Gilt._period. rewrite Z.geb_leb.
  destruct (Z.leb_spec Gilt.min_coupon_days (days prev (issue_date g)));
    [discriminate | auto].
Qed.

(** X11.  [ytm] passes all its assertions when the settlement date is
    after the previous coupon date, or in a long first period up to the
    ex-dividend date; the period then has 181 to 184 days, [r] and [n]
    are not negative. *)
Theorem ytm_prepare_succeeds (g : Gilt) (s prev next : date) :
  valid_gilt g ->
  Gilt.prev_next_coupon_date g s = Ok (prev, next) ->
  toordinal prev < toordinal s \/
  (Gilt._period g prev = LONG /\
   toordinal s <= toordinal (Gilt.ex_dividend_date next)) ->
  exists fr,
    Gilt.ytm_prepare g s = Ok fr /\
    181 <= Gilt.s fr <= 184 /\
    0 <= Gilt.r fr /\
    0 <= Gilt.n fr /\
    Gilt.s fr = days (Gilt.next_coupon fr) (Gilt.prev_coupon fr) /\
    Gilt.r fr = days (Gilt.next_coupon fr) s /\
    toordinal (Gilt.prev_coupon fr) < toordinal s <= toordinal (Gilt.next_coupon fr).
Proof.
  intros V HPN Hcond.
  destruct (prev_next_coupon_dates g s prev next HPN) as [rest HK].
  pose proof (coupon_dates_in_life g s _ HK) as L.
  destruct (prev_next_coupon_date_facts g s prev next V HPN)
    as [Vp [Vn [Hlt [Hsn _]]]].
  unfold in_life in L.
  assert (Hper : 181 <= days next prev <= 184).
  { destruct (prev_next_coupon_date_inv g s prev next V HPN) as [K [-> [-> _]]].
    apply candidate_period, V. }
  pose proof (half_year_days prev Vp) as Hhalf.
  destruct (coupon_periods_nonzero g s prev next V HPN) as [D1 D2].
  assert (A2 : (s <=? next)%date = true) by (apply Z.leb_le; lia).
  assert (A4 : (issue_date g <=? next)%date = true)
    by (apply Z.leb_le; unfold in_life in L; lia).
  assert (A5 : (days next s >=? 0) = true)
    by (rewrite Z.geb_leb; apply Z.leb_le; unfold days; lia).
  assert (A6 : ((days next prev >=? 181) && (days next prev <=? 184)) = true).
  { rewrite Z.geb_leb. apply andb_true_iff. rewrite !Z.leb_le. lia. }
  assert (Hn : 0 <= Z.of_nat (List.length (next :: rest)) - 1)
    by (simpl List.length; lia).
  unfold Gilt.ytm_prepare. rewrite HK.
  cbv beta iota zeta delta [bind].
  destruct (Z.ltb_spec (toordinal (Gilt.ex_dividend_date next)) (toordinal s))
    as [Hx|Hx].
  - (* after the ex-dividend date *)
    assert (Hps : toordinal prev < toordinal s)
      by (destruct Hcond as [?|[_ ?]]; lia).
    assert (A1 : (prev <? s)%date = true) by (apply Z.ltb_lt; exact Hps).
    unfold date_gtb at 1. unfold date_ltb at 1.
    replace (toordinal (Gilt.ex_dividend_date next) <? toordinal s) with true
      by (symmetry; apply Z.ltb_lt; exact Hx).
    cbv beta iota zeta delta [bind assert]. rewrite A1, A2, A5, A6.
    cbv beta iota.
    eexists. split; [reflexivity|].
    cbv [Gilt.s Gilt.r Gilt.n Gilt.prev_coupon Gilt.next_coupon].
    unfold days in *. lia.
  - unfold date_gtb at 1. unfold date_ltb at 1.
    replace (toordinal (Gilt.ex_dividend_date next) <? toordinal s) with false
      by (symmetry; apply Z.ltb_ge; exact Hx).
    destruct (Gilt._period g prev) eqn:Pd.
    + assert (Hps : toordinal prev < toordinal s)
        by (destruct Hcond as [?|[? _]]; [lia | discriminate]).
      assert (A1 : (prev <? s)%date = true) by (apply Z.ltb_lt; exact Hps).
      rewrite (period_SHORT g prev Pd), A4.
      cbv beta iota zeta delta [bind assert].
      rewrite (truediv_ok _ _ D1). cbv beta iota.
      rewrite A1, A2, A5, A6. cbv beta iota.
      eexists. split; [reflexivity|].
      cbv [Gilt.s Gilt.r Gilt.n Gilt.prev_coupon Gilt.next_coupon].
      unfold days in *. lia.
    + assert (Hps : toordinal prev < toordinal s)
        by (destruct Hcond as [?|[? _]]; [lia | discriminate]).
      assert (A1 : (prev <? s)%date = true) by (apply Z.ltb_lt; exact Hps).
      cbv beta iota zeta delta [bind assert].
      rewrite A1, A2, A5, A6. cbv beta iota.
      eexists. split; [reflexivity|].
      cbv [Gilt.s Gilt.r Gilt.n Gilt.prev_coupon Gilt.next_coupon].
      unfold days in *. lia.
    + rewrite (truediv_ok _ _ D2).
      pose proof (period_LONG g prev Pd) as Hl1.
      pose proof (period_LONG_close g prev Pd) as Hl2.
      unfold Gilt.min_coupon_days in Hl2.
      destruct (Z.leb_spec (toordinal s) (toordinal prev)) as [Hle|Hgt].
      * (* the period is reframed *)
        unfold date_leb at 1.
        replace (toordinal s <=? toordinal prev) with true
          by (symmetry; apply Z.leb_le; exact Hle).
        assert (B1 : (shift_month prev (-6) <=? issue_date g)%date = true)
          by (apply Z.leb_le; unfold days in *; lia).
        assert (B2 : (issue_date g <=? prev)%date = true)
          by (apply Z.leb_le; unfold days in *; lia).
        assert (B3 : (shift_month prev (-6) <? s)%date = true)
          by (apply Z.ltb_lt; unfold days, in_life in *; lia).
        assert (B4 : (s <=? prev)%date = true) by (apply Z.leb_le; lia).
        assert (B5 : (days prev s >=? 0) = true)
          by (rewrite Z.geb_leb; apply Z.leb_le; unfold days; lia).
        assert (B6 : ((days prev (shift_month prev (-6)) >=? 181)
                      && (days prev (shift_month prev (-6)) <=? 184)) = true).
        { rewrite Z.geb_leb. apply andb_true_iff. rewrite !Z.leb_le. lia. }
        rewrite B1, B2. cbv beta iota zeta delta [bind assert].
        rewrite B3, B4, B5, B6. cbv beta iota.
        eexists. split; [reflexivity|].
        cbv [Gilt.s Gilt.r Gilt.n Gilt.prev_coupon Gilt.next_coupon].
        unfold days in *. lia.
      * unfold date_leb at 1.
        replace (toordinal s <=? toordinal prev) with false
          by (symmetry; apply Z.leb_gt; exact Hgt).
        assert (A1 : (prev <? s)%date = true) by (apply Z.ltb_lt; exact Hgt).
        cbv beta iota zeta delta [bind assert].
        rewrite A1, A2, A5, A6. cbv beta iota.
        eexists. split; [reflexivity|].
        cbv [Gilt.s Gilt.r Gilt.n Gilt.prev_coupon Gilt.next_coupon].
        unfold days in *. lia.
Qed.

(** X12.  [ytm] fails an assertion when the settlement date is not
    after the previous coupon date and the period is not a long first
    period (or the ex-dividend date has passed): a gilt bought on its
    issue date, when that is a quasi-coupon date, has no yield. *)
Theorem ytm_assertion_fails (g : Gilt) (P : Q) (s prev next : date) :
  valid_gilt g ->
  Gilt.prev_next_coupon_date g s = Ok (prev, next) ->
  toordinal s <= toordinal prev ->
  Gilt._period g prev <> LONG \/
  toordinal (Gilt.ex_dividend_date next) < toordinal s ->
  Gilt.ytm_prepare g s = Raise AssertionError /\
  Gilt.ytm g P s = Raise AssertionError.
Proof.
  intros V HPN Hsp Hcond.
  destruct (prev_next_coupon_dates g s prev next HPN) as [rest HK].
  pose proof (coupon_dates_in_life g s _ HK) as L.
  destruct (prev_next_coupon_date_facts g s prev next V HPN)
    as [Vp [Vn [Hlt [Hsn _]]]].
  destruct (coupon_periods_nonzero g s prev next V HPN) as [D1 D2].
  assert (A1 : (prev <? s)%date = false) by (apply Z.ltb_ge; exact Hsp).
  assert (A4 : (issue_date g <=? next)%date = true)
    by (apply Z.leb_le; unfold in_life in L; lia).
  assert (E : Gilt.ytm_prepare g s = Raise AssertionError).
  { unfold Gilt.ytm_prepare. rewrite HK.
    cbv beta iota zeta delta [bind].
    destruct (Z.ltb_spec (toordinal (Gilt.ex_dividend_date next)) (toordinal s))
      as [Hx|Hx].
    - unfold date_gtb at 1. unfold date_ltb at 1.
      replace (toordinal (Gilt.ex_dividend_date next) <? toordinal s) with true
        by (symmetry; apply Z.ltb_lt; exact Hx).
      cbv beta iota zeta delta [bind assert]. rewrite A1. reflexivity.
    - unfold date_gtb at 1. unfold date_ltb at 1.
      replace (toordinal (Gilt.ex_dividend_date next) <? toordinal s) with false
        by (symmetry; apply Z.ltb_ge; exact Hx).
      destruct (Gilt._period g prev) eqn:Pd.
      + rewrite (period_SHORT g prev Pd), A4.
        cbv beta iota zeta delta [bind assert].
        rewrite (truediv_ok _ _ D1). cbv beta iota.
        rewrite A1. reflexivity.
      + cbv beta iota zeta delta [bind assert]. rewrite A1. reflexivity.
      + destruct Hcond as [Hc|Hc]; [congruence | lia]. }
  split; [exact E|].
  unfold Gilt.ytm. rewrite E. reflexivity.
Qed.

End YtmAssertions.

(* ================================================================== *)
(** ** Fixing of index-linked cash flows *)


Section FixingFacts.
Context {calendar : BusinessCalendar}.

Lemma replace_day_1 (d : date) :
  valid_date d -> replace d None None (Some 1) = Ok (mkdate (year d) (month d) 1).
Proof.
  intros V. apply valid_date_spec in V. unfold replace. cbv zeta beta iota.
  replace (valid_dateb (mkdate (year d) (month d) 1)) with true; [reflexivity|].
  symmetry. apply valid_date_spec. simpl.
  pose proof (days_in_month_bounds (year d) (month d)). lia.
Qed.

Lemma fixed_date_eq (il : IndexLinkedGilt) (d : date) :
  valid_date d ->
  IndexLinkedGilt.fixed_date il d
  = Ok (shift_month (mkdate (year d) (month d) 1) (- fixing_months il d)).
Proof.
  intros V. unfold IndexLinkedGilt.fixed_date, fixing_months.
  rewrite (replace_day_1 d V). cbv beta iota zeta delta [bind].
  destruct (lag_cases il) as [E|E]; rewrite E; simpl.
  - destruct (day d >? 1); reflexivity.
  - reflexivity.
Qed.

Lemma toordinal_first_of_month (d : date) (n : Z) :
  toordinal (shift_month (mkdate (year d) (month d) 1) n)
  = month_start (month_index d + n) + 1.
Proof.
  rewrite toordinal_shift_month.
  change (month_index (mkdate (year d) (month d) 1)) with (month_index d).
  pose proof (month_len_bounds (month_index d + n)).
  simpl day. lia.
Qed.

Lemma fixing_months_bounds (il : IndexLinkedGilt) (d : date) :
  2 <= fixing_months il d <= 8.
Proof.
  unfold fixing_months.
  destruct (IndexLinkedGilt.lag il =? 3); [destruct (day d >? 1)|]; lia.
Qed.

(** X13.  [fixed_date] never fails on a date: it returns the first day
    of the month 2 or 3 months back (3-month lag; 3 when the date is the
    first of its month) or 8 months back (8-month lag), which is more
    than 28 days before the date. *)
Theorem fixed_date_before (il : IndexLinkedGilt) (d : date) :
  valid_date d ->
  exists fixed,
    IndexLinkedGilt.fixed_date il d = Ok fixed /\
    valid_date fixed /\ day fixed = 1 /\
    month_index fixed = month_index d - fixing_months il d /\
    toordinal fixed + 28 < toordinal d.
Proof.
  intros V. eexists. split; [apply (fixed_date_eq il d V)|].
  pose proof (fixing_months_bounds il d) as Hb.
  apply valid_date_spec in V. destruct V as [Hm Hd].
  split; [apply shift_month_valid; simpl; lia|].
  split.
  { unfold shift_month. simpl.
    pose proof (days_in_month_bounds
                  ((year d * 12 + (month d - 1) + - fixing_months il d) / 12)
                  ((year d * 12 + (month d - 1) + - fixing_months il d) mod 12 + 1)).
    lia. }
  split.
  { rewrite shift_month_index. change (month_index (mkdate (year d) (month d) 1)) with (month_index d). lia. }
  rewrite toordinal_first_of_month, (toordinal_month_start d Hm).
  pose proof (month_start_mono (month_index d + - fixing_months il d) (month_index d)).
  lia.
Qed.

Lemma month_index_le (a b : date) :
  valid_date a -> valid_date b ->
  toordinal a <= toordinal b -> month_index a <= month_index b.
Proof.
  intros Va Vb H.
  destruct (Z.le_gt_cases (month_index a) (month_index b)) as [Hle|Hgt];
    [exact Hle|].
  pose proof (toordinal_lt_of_month b a Vb Va Hgt). lia.
Qed.

Lemma same_month_days (a b : date) :
  valid_date a -> valid_date b ->
  month_index a = month_index b ->
  toordinal a - toordinal b = day a - day b.
Proof.
  intros Va Vb E. apply valid_date_spec in Va, Vb.
  rewrite (toordinal_month_start a), (toordinal_month_start b) by tauto.
  rewrite E. lia.
Qed.

Lemma fixed_date_mono (il : IndexLinkedGilt) (d1 d2 f1 f2 : date) :
  valid_date d1 -> valid_date d2 ->
  toordinal d1 <= toordinal d2 ->
  IndexLinkedGilt.fixed_date il d1 = Ok f1 -> IndexLinkedGilt.fixed_date il d2 = Ok f2 ->
  toordinal f1 <= toordinal f2.
Proof.
  intros V1 V2 Hle H1 H2.
  rewrite (fixed_date_eq il d1 V1) in H1. rewrite (fixed_date_eq il d2 V2) in H2.
  injection H1 as <-. injection H2 as <-.
  rewrite !toordinal_first_of_month.
  pose proof (month_index_le d1 d2 V1 V2 Hle) as Hmi.
  pose proof (fixing_months_bounds il d1) as B1.
  pose proof (fixing_months_bounds il d2) as B2.
  assert (Hk : month_index d1 + - fixing_months il d1
               <= month_index d2 + - fixing_months il d2).
  { destruct (Z.eq_dec (month_index d1) (month_index d2)) as [E|E].
    - pose proof (same_month_days d1 d2 V1 V2 E) as Hd.
      apply valid_date_spec in V1, V2.
      unfold fixing_months in *.
      destruct (IndexLinkedGilt.lag il =? 3); [|lia].
      destruct (Z.gtb_spec (day d1) 1); destruct (Z.gtb_spec (day d2) 1); lia.
    - unfold fixing_months in *.
      destruct (IndexLinkedGilt.lag il =? 3); [|lia].
      destruct (day d1 >? 1); destruct (day d2 >? 1); lia. }
  pose proof (month_start_mono _ _ Hk). lia.
Qed.

(** X14.  [is_fixed] is monotone: when the cash flow of a date is
    fixed, so is that of every earlier date. *)
Theorem is_fixed_earlier (il : IndexLinkedGilt) (d1 d2 : date) :
  valid_date d1 -> valid_date d2 ->
  toordinal d1 <= toordinal d2 ->
  IndexLinkedGilt.is_fixed il d2 = Ok true ->
  IndexLinkedGilt.is_fixed il d1 = Ok true.
Proof.
  intros V1 V2 Hle H2. unfold IndexLinkedGilt.is_fixed in *.
  destruct (IndexLinkedGilt.fixed_date il d2) as [f2|e] eqn:E2; [|discriminate].
  destruct (IndexLinkedGilt.fixed_date il d1) as [f1|e] eqn:E1;
    [|rewrite (fixed_date_eq il d1 V1) in E1; discriminate].
  pose proof (fixed_date_mono il d1 d2 f1 f2 V1 V2 Hle E1 E2) as Hf.
  simpl in *. injection H2 as H2. f_equal.
  unfold date_geb, date_leb in *. apply Z.leb_le in H2. apply Z.leb_le. lia.
Qed.

End FixingFacts.

Section Rounding.

Lemma round_half_even_compat (x y : Q) :
  (x == y)%Q -> round_half_even x = round_half_even y.
Proof.
  intros E. unfold round_half_even.
  rewrite (Qfloor_comp _ _ E).
  assert (E' : (x - inject_Z (Qfloor y) == y - inject_Z (Qfloor y))%Q)
    by (rewrite E; reflexivity).
  rewrite (Qcompare_comp _ _ E' _ _ (Qeq_refl (1 # 2))). reflexivity.
Qed.

Lemma round_compat (x y : Q) (n : Z) : (x == y)%Q -> round x n = round y n.
Proof.
  intros E. unfold round.
  assert (E' : (x * inject_Z (10 ^ n) == y * inject_Z (10 ^ n))%Q)
    by (rewrite E; reflexivity).
  rewrite (round_half_even_compat _ _ E'). reflexivity.
Qed.

End Rounding.

Section RefRpi.
Context {calendar : BusinessCalendar}.

(** X15.  For a 3-month-lag gilt and a date, the interpolation weight
    [(day - 1) / days_in_month] is in [0, 1), so that the assertion of
    [ref_rpi] cannot fail; the reference RPI is the rounded
    interpolation of the RPI of the months 3 and 2 months back, and on
    the first of a month the rounded RPI of the month 3 months back. *)
Theorem ref_rpi_interpolation (il : IndexLinkedGilt) (d : date)
    (rate : option Q) (rpi0 rpi1 : Q) :
  IndexLinkedGilt.lag il = 3 -> valid_date d ->
  extrapolate_from_index (rpi_series il)
    (lookup_index (rpi_series il) d - 3) rate = Ok rpi0 ->
  extrapolate_from_index (rpi_series il)
    (lookup_index (rpi_series il) d - 3 + 1) rate = Ok rpi1 ->
  let weight := (inject_Z (day d - 1)
                 / inject_Z (days_in_month (year d) (month d)))%Q in
  (0 <= weight)%Q /\ (weight < 1)%Q /\
  IndexLinkedGilt.ref_rpi il d rate
  = Ok (round (rpi0 + weight * (rpi1 - rpi0)) 5) /\
  (day d = 1 -> IndexLinkedGilt.ref_rpi il d rate = Ok (round rpi0 5)).
Proof.
  intros Hlag V H0 H1 weight.
  apply valid_date_spec in V. destruct V as [Hm Hd].
  pose proof (days_in_month_bounds (year d) (month d)) as Hb.
  assert (W0 : (0 <= weight)%Q) by (apply ratio_nonneg; lia).
  assert (W1 : (weight < 1)%Q).
  { unfold weight. apply Qlt_shift_div_r.
    - change 0%Q with (inject_Z 0). rewrite <- Zlt_Qlt. lia.
    - rewrite Qmult_1_l, <- Zlt_Qlt. lia. }
  assert (E : IndexLinkedGilt.ref_rpi il d rate
              = Ok (round (rpi0 + weight * (rpi1 - rpi0)) 5)).
  { unfold IndexLinkedGilt.ref_rpi. rewrite Hlag. simpl Z.eqb.
    cbv beta iota zeta delta [bind].
    rewrite truediv_ok by lia. fold weight.
    assert (A : (Qle_bool 0 weight && negb (Qle_bool 1 weight)) = true).
    { apply andb_true_iff. split.
      - apply Qle_bool_iff. exact W0.
      - apply negb_true_iff. destruct (Qle_bool 1 weight) eqn:B; [|reflexivity].
        apply Qle_bool_iff in B. lra. }
    rewrite A. cbv beta iota zeta delta [assert].
    rewrite H0, H1. reflexivity. }
  split; [exact W0|]. split; [exact W1|]. split; [exact E|].
  intros Hday. rewrite E. f_equal. apply round_compat.
  unfold weight. rewrite Hday. simpl (1 - 1). unfold Qdiv.
  change (inject_Z 0) with 0%Q. ring.
Qed.

End RefRpi.

Section Fixed.
Context {calendar : BusinessCalendar}.

Lemma is_fixed_month (il : IndexLinkedGilt) (d : date) :
  valid_date d -> valid_date (last_date (rpi_series il)) ->
  IndexLinkedGilt.is_fixed il d = Ok true ->
  month_index d - fixing_months il d <= month_index (last_date (rpi_series il)).
Proof.
  intros V VL H. unfold IndexLinkedGilt.is_fixed in H.
  rewrite (fixed_date_eq il d V) in H. simpl in H. injection H as H.
  unfold date_geb, date_leb in H. apply Z.leb_le in H.
  replace (month_index d - fixing_months il d)
    with (month_index (shift_month (mkdate (year d) (month d) 1)
                         (- fixing_months il d)))
    by (rewrite shift_month_index; unfold month_index; simpl; lia).
  apply month_index_le; [apply shift_month_valid; simpl; lia|exact VL|exact H].
Qed.

(** X16.  Over a monthly RPI series, the reference RPI and the index
    ratio of a date that [is_fixed] do not depend on the inflation
    assumption (3-month lag; 8-month lag on a coupon date): no
    extrapolated value enters them. *)
Theorem fixed_index_ratio (il : IndexLinkedGilt) (d : date) (rate rate' : option Q) :
  monthly_series (rpi_series il) ->
  valid_date d ->
  IndexLinkedGilt.lag il = 3 \/
    (exists prev, Gilt.prev_next_coupon_date (base il) d = Ok (prev, d)) ->
  IndexLinkedGilt.is_fixed il d = Ok true ->
  IndexLinkedGilt.ref_rpi il d rate = IndexLinkedGilt.ref_rpi il d rate' /\
  IndexLinkedGilt.index_ratio il d rate = IndexLinkedGilt.index_ratio il d rate'.
Proof.
  intros (VL & (origin & Hidx) & Hstored & Hfuture) V Hcase Hfixed.
  pose proof (is_fixed_month il d V VL Hfixed) as Hm.
  assert (R : forall r r', IndexLinkedGilt.ref_rpi il d r = IndexLinkedGilt.ref_rpi il d r').
  { intros r r'. unfold IndexLinkedGilt.ref_rpi.
    destruct (lag_cases il) as [E|E].
    - rewrite E. simpl Z.eqb. cbv beta iota zeta.
      unfold fixing_months in Hm. rewrite E in Hm. simpl Z.eqb in Hm.
      cbv beta iota in Hm.
      rewrite (Hstored (lookup_index (rpi_series il) d - 3) r r')
        by (rewrite !Hidx; destruct (day d >? 1); lia).
      destruct (Z.gtb_spec (day d) 1) as [Hd|Hd].
      + rewrite (Hstored (lookup_index (rpi_series il) d - 3 + 1) r r')
          by (rewrite !Hidx; lia).
        reflexivity.
      + assert (Ed : day d = 1) by (apply valid_date_spec in V; lia).
        destruct (Z.le_gt_cases (lookup_index (rpi_series il) d - 3 + 1)
                    (lookup_index (rpi_series il) (last_date (rpi_series il))))
          as [Hle|Hgt].
        * rewrite (Hstored _ r r' Hle). reflexivity.
        * destruct (Hfuture _ r Hgt) as [v Ev].
          destruct (Hfuture _ r' Hgt) as [v' Ev'].
          rewrite Ev, Ev'. rewrite Ed. simpl (1 - 1).
          pose proof (days_in_month_bounds (year d) (month d)) as Hb.
          rewrite truediv_ok by lia.
          cbv beta iota zeta delta [bind].
          destruct (assert _) as [[]|e]; [|reflexivity].
          destruct (extrapolate_from_index (rpi_series il)
                      (lookup_index (rpi_series il) d - 3) r') as [rpi0|e];
            [|reflexivity].
          f_equal. apply round_compat. unfold Qdiv.
          change (inject_Z 0) with 0%Q. ring.
    - destruct Hcase as [E3|[prev Hp]]; [lia|].
      rewrite E. simpl Z.eqb. cbv beta iota zeta.
      rewrite Hp. cbv beta iota zeta delta [bind assert].
      unfold fixing_months in Hm. rewrite E in Hm. simpl Z.eqb in Hm.
      cbv beta iota in Hm.
      rewrite (Hstored (lookup_index (rpi_series il) d - 8) r r')
        by (rewrite !Hidx; lia).
      reflexivity. }
  split; [apply R|].
  unfold IndexLinkedGilt.index_ratio.
  rewrite (R (Some match rate with None => IndexLinkedGilt.inflation_rate | Some r => r end)
             (Some match rate' with None => IndexLinkedGilt.inflation_rate | Some r => r end)).
  reflexivity.
Qed.

End Fixed.

(* ================================================================== *)
(** ** [Issued.filter] *)


Section Filter.
Context {calendar : BusinessCalendar}.

Lemma is_redemption_fixed_total (il : IndexLinkedGilt) :
  valid_date (maturity (base il)) ->
  exists b, IndexLinkedGilt.is_redemption_fixed il = Ok b.
Proof.
  intros V. unfold IndexLinkedGilt.is_redemption_fixed, IndexLinkedGilt.is_fixed.
  rewrite (fixed_date_eq il _ V). simpl. eauto.
Qed.

Lemma filter_cons (g : AnyGilt) (all : list AnyGilt)
    (index_linked : option bool) (s : option date) (rest : list AnyGilt) :
  valid_maturity g ->
  Issued.filter all index_linked s = Ok rest ->
  (Issued.filter (g :: all) index_linked s = Ok (g :: rest) /\ tradable s g /\
   match index_linked with
   | Some false => redemption_known g \/ exists c, g = Conventional c
   | Some true => exists il, g = IndexLinked il /\
                             IndexLinkedGilt.is_redemption_fixed il = Ok false
   | None => True
   end) \/
  (Issued.filter (g :: all) index_linked s = Ok rest /\
   (~ tradable s g \/
    match index_linked with
    | Some false => exists il, g = IndexLinked il /\
                               IndexLinkedGilt.is_redemption_fixed il = Ok false
    | Some true => redemption_known g \/ exists c, g = Conventional c
    | None => False
    end)).
Proof.
  intros V Hrest. simpl Issued.filter. rewrite Hrest.
  destruct (match s with
            | Some s0 => (s0 >? Gilt.ex_dividend_date (maturity (gilt_base g)))%date
            | None => false
            end) eqn:Es.
  { right. split; [reflexivity|]. left. unfold tradable.
    destruct s as [s0|]; [|discriminate].
    unfold date_gtb, date_ltb in Es. apply Z.ltb_lt in Es. lia. }
  assert (T : tradable s g).
  { unfold tradable. destruct s as [s0|]; [|exact I].
    unfold date_gtb, date_ltb in Es. apply Z.ltb_ge in Es. exact Es. }
  destruct g as [c|il].
  - cbv beta iota zeta delta [bind type_].
    destruct index_linked as [[|]|]; simpl.
    + right. split; [reflexivity|]. right. right. eauto.
    + left. repeat split; eauto.
    + left. repeat split; eauto.
  - destruct (is_redemption_fixed_total il V) as [b Eb].
    rewrite Eb. cbv beta iota zeta delta [bind type_].
    destruct b; destruct index_linked as [[|]|]; simpl.
    + right. split; [reflexivity|]. right. left. exact Eb.
    + left. repeat split; eauto.
    + left. repeat split; eauto.
    + left. repeat split; eauto.
    + right. split; [reflexivity|]. right. eauto.
    + left. repeat split; eauto.
Qed.

(** X17.  [filter] never fails; what it yields is [self.all] with some
    gilts left out, the others in the order of [self.all]; the gilts
    yielded are exactly those that can still be traded at the
    settlement date (not after the ex-dividend date of the maturity)
    and are of the type asked for; they are sorted by maturity when
    [self.all] is. *)
Theorem filter_in_order (all : list AnyGilt) (index_linked : option bool)
    (settlement_date : option date) :
  Forall valid_maturity all ->
  exists selected,
    Issued.filter all index_linked settlement_date = Ok selected /\
    kept_in_order selected all /\
    (forall g, In g selected <->
               In g all /\ tradable settlement_date g /\
               selected_as index_linked g) /\
    (StronglySorted maturity_le all -> StronglySorted maturity_le selected).
Proof.
  induction 1 as [|g all V _ IH].
  - exists []. split; [reflexivity|]. split; [constructor|].
    split; [|intros _; constructor].
    intros g. simpl. tauto.
  - destruct IH as (rest & E & Hkept & Hin & Hsorted).
    assert (Hsel : forall x, selected_as index_linked x ->
                             match index_linked with
                             | Some false =>
                                 redemption_known x \/ exists c, x = Conventional c
                             | Some true =>
                                 exists il, x = IndexLinked il /\
                                   IndexLinkedGilt.is_redemption_fixed il = Ok false
                             | None => True
                             end).
    { intros x Hx. destruct index_linked as [[|]|]; [| |exact I];
        destruct x as [c|il]; simpl in *; eauto; contradiction. }
    assert (Hsel' : forall x, match index_linked with
                             | Some false =>
                                 redemption_known x \/ exists c, x = Conventional c
                             | Some true =>
                                 exists il, x = IndexLinked il /\
                                   IndexLinkedGilt.is_redemption_fixed il = Ok false
                             | None => True
                             end -> selected_as index_linked x).
    { intros x Hx. destruct index_linked as [[|]|]; [| |exact I].
      - destruct Hx as (il & -> & Hil). exact Hil.
      - destruct Hx as [Hx|[c ->]]; [|exact I].
        destruct x as [c|il]; [contradiction|exact Hx]. }
    destruct (filter_cons g all index_linked settlement_date rest V E)
      as [(E' & T & K)|(E' & N)].
    + exists (g :: rest). split; [exact E'|]. split; [constructor; exact Hkept|].
      split.
      * intros x. simpl. rewrite Hin. split.
        -- intros [<-|(Hx & Tx & Sx)]; [|tauto].
           split; [left; reflexivity|]. split; [exact T|]. apply Hsel', K.
        -- intros ([<-|Hx] & Tx & Sx); [left; reflexivity|right; tauto].
      * intros S. inversion S as [|? ? S' Hall]; subst. constructor; [auto|].
        rewrite Forall_forall in *. intros x Hx. apply Hall. apply Hin, Hx.
    + exists rest. split; [exact E'|]. split; [constructor; exact Hkept|].
      split.
      * intros x. rewrite Hin. simpl. split; [tauto|].
        intros ([<-|Hx] & Tx & Sx); [|tauto].
        exfalso. destruct N as [N|N]; [exact (N Tx)|].
        apply Hsel in Sx.
        destruct index_linked as [[|]|]; [| |exact N].
        -- destruct Sx as (il & -> & Hil).
           destruct N as [N|[c N]]; [|discriminate].
           simpl in N. congruence.
        -- destruct N as (il & -> & Hil).
           destruct Sx as [Sx|[c Sx]]; [|discriminate].
           simpl in Sx. congruence.
      * intros S. inversion S; subst. auto.
Qed.

(** X18.  The conventional and the index-linked selection of [filter]
    split the selection of both: every tradable gilt is in exactly one.
    The conventional ones are the conventional gilts and the
    index-linked gilts whose redemption is fixed; the index-linked ones
    are the index-linked gilts whose redemption is not fixed. *)
Theorem filter_partition (all : list AnyGilt) (settlement_date : option date) :
  Forall valid_maturity all ->
  exists both conventional index_linked,
    Issued.filter all None settlement_date = Ok both /\
    Issued.filter all (Some false) settlement_date = Ok conventional /\
    Issued.filter all (Some true) settlement_date = Ok index_linked /\
    Permutation both (conventional ++ index_linked) /\
    Forall (fun g => redemption_known g \/ exists c, g = Conventional c)
      conventional /\
    Forall (fun g => exists il, g = IndexLinked il /\
                       IndexLinkedGilt.is_redemption_fixed il = Ok false) index_linked.
Proof.
  induction 1 as [|g all V _ IH].
  - exists [], [], []. repeat split; constructor.
  - destruct IH as (both & conv & idx & Eb & Ec & Ei & P & Fc & Fi).
    destruct (filter_cons g all None settlement_date both V Eb)
      as [(Eb' & Tb & _)|(Eb' & [Nb|[]])];
    destruct (filter_cons g all (Some false) settlement_date conv V Ec)
      as [(Ec' & Tc & Kc)|(Ec' & [Nc|Kc])];
    destruct (filter_cons g all (Some true) settlement_date idx V Ei)
      as [(Ei' & Ti & Ki)|(Ei' & [Ni|Ki])];
    try contradiction;
    try (exfalso;
         repeat match goal with
                | H : exists _, _ |- _ => destruct H
                | H : _ /\ _ |- _ => destruct H
                | H : _ \/ _ |- _ => destruct H
                end;
         subst; simpl in *; congruence).
    + exists (g :: both), (g :: conv), idx.
      repeat split; auto. simpl. constructor. exact P.
    + exists (g :: both), conv, (g :: idx).
      repeat split; auto. apply Permutation_cons_app. exact P.
    + exists both, conv, idx. repeat split; auto.
    + exists both, conv, idx. repeat split; auto.
    + exists both, conv, idx. repeat split; auto.
Qed.

End Filter.

(* ================================================================== *)
(** ** The schedule, the tax events and the main loop of [solve] *)


Section ScheduleFacts.

Lemma range_ascending (count : Z) :
  StronglySorted Z.lt (range count) /\ Forall (fun i => 0 <= i < count) (range count).
Proof.
  unfold range.
  assert (G : forall n a,
             StronglySorted Z.lt (map Z.of_nat (seq a n)) /\
             Forall (fun i => Z.of_nat a <= i < Z.of_nat (a + n))
               (map Z.of_nat (seq a n))).
  { induction n as [|n IH]; intros a; simpl.
    - split; constructor.
    - destruct (IH (S a)) as [S1 F1]. split.
      + constructor; [exact S1|].
        eapply Forall_impl; [|exact F1]. simpl. intros; lia.
      + constructor; [lia|].
        eapply Forall_impl; [|exact F1]. simpl. intros; lia. }
  destruct (G (Z.to_nat count) 0%nat) as [S1 F1]. split; [exact S1|].
  eapply Forall_impl; [|exact F1]. simpl. intros; lia.
Qed.

Lemma map_sorted {A B : Type} (R : A -> A -> Prop) (R' : B -> B -> Prop)
    (P : A -> Prop) (f : A -> B) (l : list A) :
  (forall a b, P a -> P b -> R a b -> R' (f a) (f b)) ->
  Forall P l -> StronglySorted R l -> StronglySorted R' (map f l).
Proof.
  intros Hf HP HS. induction HS as [|a l HS IH Hall]; simpl.
  - constructor.
  - inversion HP as [|? ? Pa Pl]; subst.
    constructor; [apply IH, Pl|].
    rewrite Forall_forall in *. intros y Hy.
    apply in_map_iff in Hy. destruct Hy as (x & <- & Hx).
    apply Hf; auto.
Qed.

(** X19.  With a shift that moves a date strictly forward,
    [schedule] returns [count] entries of the same amount on strictly
    ascending dates; the first is the start shifted by 0, or today
    shifted by 1 when no start is given. *)
Theorem schedule_ascending (today : date) (count : Z) (amount : Q)
    (shift : date -> Z -> date) (start : option date) :
  (forall a b, 0 <= a < b ->
     let first := match start with Some start => start | None => today end in
     toordinal (shift first a) < toordinal (shift first b)) ->
  let entries := schedule today count amount shift start in
  List.length entries = Z.to_nat count /\
  Forall (fun entry => snd entry = amount) entries /\
  StronglySorted (fun a b => toordinal (fst a) < toordinal (fst b)) entries /\
  (0 < count ->
   hd_error entries
   = Some (match start with
           | Some start => shift start 0
           | None => shift today 1
           end, amount)).
Proof.
  intros Hshift entries. subst entries.
  destruct (range_ascending count) as [RS RF].
  assert (Hhd : 0 < count -> exists rest, range count = 0 :: rest).
  { intros Hc. unfold range.
    destruct (Z.to_nat count) as [|n] eqn:E; [lia|]. simpl. eauto. }
  unfold schedule. destruct start as [start|].
  - split; [unfold range; rewrite !length_map, length_seq; reflexivity|].
    split; [apply Forall_forall; intros e He; apply in_map_iff in He;
            destruct He as (i & <- & _); reflexivity|].
    split.
    + eapply (map_sorted Z.lt _ (fun i => 0 <= i < count)); [|exact RF|exact RS].
      intros a b Ha Hb Hab; cbv beta in *; unfold fst; apply Hshift; lia.
    + intros Hc. destruct (Hhd Hc) as [rest ->]. reflexivity.
  - split; [unfold range; rewrite !length_map, length_seq; reflexivity|].
    split; [apply Forall_forall; intros e He; apply in_map_iff in He;
            destruct He as (i & <- & _); reflexivity|].
    split.
    + eapply (map_sorted Z.lt _ (fun i => 0 <= i < count)); [|exact RF|exact RS].
      intros a b Ha Hb Hab; cbv beta in *; unfold fst; apply Hshift; lia.
    + intros Hc. destruct (Hhd Hc) as [rest ->]. reflexivity.
Qed.

(** X20.  The first statements of [solve] on a schedule by months: an
    empty schedule raises [IndexError]; a schedule that starts today
    raises [ZeroDivisionError]; a schedule without start yields the
    first amount scaled from the 28 to 31 days of the first month to a
    year of 365.25 days. *)
Theorem yearly_consumption_of_schedule (today : date) (count : Z) (amount : Q)
    (start : option date) :
  valid_date today ->
  let entries := schedule today count amount shift_month start in
  (count <= 0 -> Solve.yearly_consumption today entries = Raise IndexError) /\
  (0 < count -> start = Some today ->
   Solve.yearly_consumption today entries = Raise ZeroDivisionError) /\
  (0 < count -> start = None ->
   exists y, Solve.yearly_consumption today entries = Ok y /\
             (y == amount * (36525 # 100)
                   / inject_Z (days (shift_month today 1) today))%Q /\
             28 <= days (shift_month today 1) today <= 31).
Proof.
  intros V entries. subst entries.
  assert (Hhd : 0 < count -> exists rest, range count = 0 :: rest).
  { intros Hc. unfold range.
    destruct (Z.to_nat count) as [|n] eqn:E; [lia|]. simpl. eauto. }
  split; [|split].
  - intros Hc. unfold schedule, range.
    replace (Z.to_nat count) with 0%nat by lia.
    destruct start; reflexivity.
  - intros Hc ->. unfold schedule. destruct (Hhd Hc) as [rest ->]. simpl.
    rewrite (shift_month_0 today V). unfold days, fdiv.
    rewrite Z.sub_diag. reflexivity.
  - intros Hc ->. unfold schedule. destruct (Hhd Hc) as [rest ->]. simpl.
    assert (B : 28 <= days (shift_month today 1) today <= 31).
    { unfold days. rewrite toordinal_shift_month.
      pose proof V as V'. apply valid_date_spec in V'. destruct V' as [Hm Hd].
      rewrite (toordinal_month_start today Hm).
      pose proof (month_start_succ (month_index today)) as Hs.
      pose proof (month_len_bounds (month_index today)) as B0.
      pose proof (month_len_bounds (month_index today + 1)) as B1.
      destruct (month_index_div today Hm) as [Ey Em].
      assert (El : month_len (month_index today)
                   = days_in_month (year today) (month today))
        by (unfold month_len; rewrite Ey, Em; reflexivity).
      lia. }
    unfold fdiv.
    destruct (Qeq_bool (inject_Z (days (shift_month today 1) today)) 0) eqn:E.
    + apply Qeq_bool_iff in E. unfold Qeq in E. simpl in E. lia.
    + eexists. split; [reflexivity|]. split; [reflexivity|exact B].
Qed.

End ScheduleFacts.

Section TaxEventFacts.
Context {Operand : Type}.
Variable none : Operand.

Lemma toordinal_year_lt (a b : date) :
  valid_date a -> valid_date b -> year a < year b -> toordinal a < toordinal b.
Proof.
  intros Va Vb H. apply toordinal_lt_of_month; try assumption.
  apply valid_date_spec in Va, Vb. unfold month_index. lia.
Qed.

Lemma april_5_valid (y : Z) : valid_date (april_5 y).
Proof. reflexivity. Qed.


Lemma april_5_lt (a b : Z) :
  a < b -> toordinal (april_5 a) < toordinal (april_5 b).
Proof.
  intros H. apply toordinal_year_lt; [apply april_5_valid..|exact H].
Qed.

Lemma april_5_le (a b : Z) :
  a <= b -> toordinal (april_5 a) <= toordinal (april_5 b).
Proof.
  intros H. destruct (Z.eq_dec a b) as [->|N]; [lia|].
  pose proof (april_5_lt a b). lia.
Qed.





(** Beyond [MAXYEAR] there is no next year. *)
Lemma replace_year_out_of_range (d : date) (y' : Z) :
  MAXYEAR < y' -> replace d (Some y') None None = Raise ValueError.
Proof.
  intros H. unfold replace. cbv zeta.
  replace (y' <=? MAXYEAR) with false; [rewrite andb_false_r; reflexivity|].
  symmetry. apply Z.leb_gt. exact H.
Qed.






End TaxEventFacts.

Section OrderFacts.
Context {A : Type}.





End OrderFacts.

Section TaxOrder.
Context {Operand : Type}.
Variable none : Operand.









End TaxOrder.

Section MainLoopFacts.

Variable expr : Type.
Variable number : Q -> expr.
Variables add sub : expr -> expr -> expr.
Variable scale : expr -> Q -> expr.
Variable balance_variable : date -> nat -> expr.
Variable Operand : Type.
Variable none : Operand.
Variable amount_of : Operand -> option expr.
Variable pair_of : Operand -> option expr * option expr.
Variables marginal_income_tax interest_rate : Q.
Variable last_consuption : date.

Let accumulate_interest :=
  Solve.accumulate_interest expr add scale Operand interest_rate last_consuption.
Let book := Solve.book expr add sub balance_variable Operand.
Let process :=
  Solve.process expr number add sub scale balance_variable Operand
    amount_of pair_of marginal_income_tax interest_rate last_consuption.
Let main_loop :=
  Solve.main_loop expr number add sub scale balance_variable Operand
    amount_of pair_of marginal_income_tax interest_rate last_consuption.






End MainLoopFacts.

Section MainLoop.

Variable expr : Type.
Variable number : Q -> expr.
Variables add sub : expr -> expr -> expr.
Variable scale : expr -> Q -> expr.
Variable balance_variable : date -> nat -> expr.
Variable Operand : Type.
Variable none : Operand.
Variable amount_of : Operand -> option expr.
Variable pair_of : Operand -> option expr * option expr.
Variables marginal_income_tax interest_rate : Q.


End MainLoop.

(* ================================================================== *)
(** ** The theorems at concrete gilts *)

Import Examples.

#[local] Existing Instance weekdays.
#[local] Existing Instance prims.


Lemma coupon_dates_first_stop_witness :
  valid_gilt TN25 /\ in_life TN25 d_2024_07_31 /\
  exists K,
    Gilt.coupon_dates TN25 d_2024_07_31
    = Ok (candidate TN25 K, coupons_to_come TN25 K) /\
    first_stop TN25 d_2024_07_31 K.
Proof.
  assert (V : valid_gilt TN25) by (split; reflexivity).
  assert (L : in_life TN25 d_2024_07_31)
    by (unfold in_life; vm_compute; split; discriminate).
  split; [exact V|]. split; [exact L|].
  destruct (coupon_dates_first_stop TN25 d_2024_07_31 V L) as [K [H1 [H2 _]]].
  exists K. split; assumption.
Defined.

Lemma coupon_dates_nonempty_witness :
  valid_gilt TN25 /\
  Gilt.min_coupon_days <= days (maturity TN25) (issue_date TN25) /\
  in_life TN25 d_2023_12_01 /\
  (exists prev next rest,
     Gilt.coupon_dates TN25 d_2023_12_01 = Ok (prev, next :: rest)) /\
  (exists a, Gilt.accrued_interest TN25 d_2023_12_01 = Ok a).
Proof.
  assert (V : valid_gilt TN25) by (split; reflexivity).
  assert (H60 : Gilt.min_coupon_days <= days (maturity TN25) (issue_date TN25))
    by (vm_compute; discriminate).
  assert (L : in_life TN25 d_2023_12_01)
    by (unfold in_life; vm_compute; split; discriminate).
  split; [exact V|]. split; [exact H60|]. split; [exact L|].
  destruct (coupon_dates_nonempty TN25 d_2023_12_01 V H60 L)
    as [[prev [next [rest [H _]]]] [Ha _]].
  split; [|exact Ha].
  exists prev, next, rest. exact H.
Defined.


Lemma cash_flows_total_witness :
  valid_gilt TN25 /\ (0 <= coupon TN25)%Q /\ in_life TN25 d_2023_12_01 /\
  toordinal d_2023_12_01 <= toordinal (Gilt.ex_dividend_date (maturity TN25)) /\
  Gilt.min_coupon_days <= days (maturity TN25) (issue_date TN25) /\
  exists flows,
    Gilt.cash_flows TN25 d_2023_12_01 = Ok flows /\ (100 <= total flows)%Q.
Proof.
  assert (V : valid_gilt TN25) by (split; reflexivity).
  assert (C : (0 <= coupon TN25)%Q) by discriminate.
  assert (L : in_life TN25 d_2023_12_01)
    by (unfold in_life; vm_compute; split; discriminate).
  assert (X : toordinal d_2023_12_01
              <= toordinal (Gilt.ex_dividend_date (maturity TN25)))
    by (vm_compute; discriminate).
  assert (H60 : Gilt.min_coupon_days <= days (maturity TN25) (issue_date TN25))
    by (vm_compute; discriminate).
  repeat (split; [assumption|]).
  exact (cash_flows_total TN25 d_2023_12_01 V C L X H60).
Defined.


(** The same purchase at the price 1e-200: the square is too large for
    a float and [ytm] raises [OverflowError]; at a negative price and a
    third of the way through the period the power is a complex
    number. *)
Lemma ytm_final_payment_errors :
  Gilt.ytm TN25 (1 # 10 ^ 200) d_2024_10_31 = Raise OverflowError /\
  Gilt.ytm TN25 (-100) (mkdate 2024 10 1) = Ok Complex.
Proof. split; vm_compute; reflexivity. Qed.



(** A withdrawal and a coupon on the same day: the coupon, added to
    the list last, is processed first. *)
Lemma events_processing_order_witness :
  nth_error (BondLadder.processing_order [withdrawal; coupon_event]) 0
  = Some coupon_event /\
  nth_error (BondLadder.processing_order [withdrawal; coupon_event]) 1
  = Some withdrawal /\
  (0 < 1)%nat.
Proof.
  assert (A : nth_error (BondLadder.processing_order [withdrawal; coupon_event]) 0
              = Some coupon_event) by reflexivity.
  assert (B : nth_error (BondLadder.processing_order [withdrawal; coupon_event]) 1
              = Some withdrawal) by reflexivity.
  split; [exact A|]. split; [exact B|].
  destruct (events_processing_order Q [withdrawal; coupon_event])
    as [_ [_ [_ H]]].
  apply (H 0%nat 1%nat coupon_event withdrawal A B); [reflexivity|].
  simpl. lia.
Defined.

(* ------------------------------------------------------------------ *)
(** *** Where the specification and the code part *)

(** C2 as written fails on a coupon date: at settlement 2024-07-31 the
    code returns 2024-01-31 as previous coupon date although the
    candidate 2024-07-31 is not after settlement, and lists 2024-07-31
    itself among the next coupon dates. *)
Lemma coupon_dates_as_written_counterexample :
  valid_gilt TN25 /\ in_life TN25 d_2024_07_31 /\
  Gilt.coupon_dates TN25 d_2024_07_31
  = Ok (mkdate 2024 1 31, [d_2024_07_31; mkdate 2025 1 31]) /\
  ~ coupon_dates_as_written TN25 d_2024_07_31.
Proof.
  split; [split; reflexivity|].
  split; [unfold in_life; vm_compute; split; discriminate|].
  split; [vm_compute; reflexivity|].
  intros [prev [nexts [H [_ [Hafter _]]]]].
  vm_compute in H. injection H as <- <-.
  inversion Hafter as [|? ? Hlt _]. vm_compute in Hlt. discriminate.
Qed.




(** C1 as written fails for a gilt that lives less than 60 days: it
    has no next coupon date and [accrued_interest] raises [IndexError]
    at [next_coupon_dates[0]]. *)
Lemma accrued_interest_formula_counterexample :
  valid_gilt short_lived /\ (0 <= coupon short_lived)%Q /\
  in_life short_lived d_2024_01_10 /\
  Gilt.accrued_interest short_lived d_2024_01_10 = Raise IndexError /\
  ~ (exists a, Gilt.accrued_interest short_lived d_2024_01_10 = Ok a).
Proof.
  split; [split; reflexivity|].
  split; [discriminate|].
  split; [unfold in_life; vm_compute; split; discriminate|].
  split; [vm_compute; reflexivity|].
  intros [a H]. vm_compute in H. discriminate.
Qed.

(** C6 as written fails for a gilt that lives less than 60 days:
    before the ex-dividend date of its maturity, [cash_flows] raises
    [IndexError]. *)
Lemma cash_flows_total_counterexample :
  valid_gilt short_lived /\ (0 <= coupon short_lived)%Q /\
  in_life short_lived d_2024_01_10 /\
  toordinal d_2024_01_10
  <= toordinal (Gilt.ex_dividend_date (maturity short_lived)) /\
  Gilt.cash_flows short_lived d_2024_01_10 = Raise IndexError /\
  ~ (exists flows,
       Gilt.cash_flows short_lived d_2024_01_10 = Ok flows /\
       (100 <= total flows)%Q).
Proof.
  split; [split; reflexivity|].
  split; [discriminate|].
  split; [unfold in_life; vm_compute; split; discriminate|].
  split; [vm_compute; discriminate|].
  split; [vm_compute; reflexivity|].
  intros [flows [H _]]. vm_compute in H. discriminate.
Qed.

(* ------------------------------------------------------------------ *)
(** *** Further properties at concrete gilts, series and ladders *)

Lemma prev_day_before (d : date) :
  valid_date d ->
  valid_date (prev_day d) /\ toordinal (prev_day d) = toordinal d - 1.
Proof.
  intros V. pose proof V as V'. apply valid_date_spec in V'.
  destruct V' as [Hm Hd]. unfold prev_day.
  destruct (Z.ltb_spec 1 (day d)) as [H|H].
  - split; [apply valid_date_spec; cbn [year month day]; lia|].
    unfold toordinal. cbn [year month day]. lia.
  - assert (Ed : day d = 1) by lia.
    set (p := shift_month (mkdate (year d) (month d) 1) (-1)).
    assert (Vp : valid_date p) by (apply shift_month_valid; simpl; lia).
    pose proof Vp as Vp'. apply valid_date_spec in Vp'. destruct Vp' as [Hpm _].
    pose proof (days_in_month_bounds (year p) (month p)) as Hb.
    split; [apply valid_date_spec; cbn [year month day]; lia|].
    rewrite toordinal_month_start by (cbn [year month day]; lia).
    rewrite (toordinal_month_start d Hm).
    change (month_index (mkdate (year p) (month p)
                           (days_in_month (year p) (month p))))
      with (month_index p).
    assert (Ei : month_index p = month_index d - 1).
    { unfold p. rewrite shift_month_index. unfold month_index. simpl. lia. }
    destruct (month_index_div p Hpm) as [Ey Em].
    assert (El : days_in_month (year p) (month p) = month_len (month_index p))
      by (unfold month_len; rewrite Ey, Em; reflexivity).
    cbn [day]. rewrite El, Ei.
    pose proof (month_start_succ (month_index d - 1)) as Hs.
    replace (month_index d - 1 + 1) with (month_index d) in Hs by lia.
    lia.
Qed.

(** The calendar of the examples goes back. *)
Lemma weekdays_go_back : calendar_goes_back.
Proof.
  intros d V. change (prev_business_day d) with (prev_weekday d).
  unfold prev_weekday.
  destruct (prev_day_before d V) as [V1 O1].
  destruct (prev_day_before _ V1) as [V2 O2].
  destruct (prev_day_before _ V2) as [V3 O3].
  destruct (weekday (prev_day d) <? 5); [split; [exact V1|lia]|].
  destruct (weekday (prev_day (prev_day d)) <? 5); split; auto; lia.
Qed.

(** A flat series is a monthly series. *)
Lemma flat_rpi_monthly (level : Q) : monthly_series (flat_rpi level).
Proof.
  split; [reflexivity|]. split.
  - exists 0. intros d. simpl. lia.
  - split; [reflexivity|]. intros i rate _. exists level. reflexivity.
Qed.

Lemma ex_dividend_date_before_witness :
  valid_date (mkdate 2025 1 31) /\
  toordinal (Gilt.ex_dividend_date (mkdate 2025 1 31)) + 7
  <= toordinal (mkdate 2025 1 31).
Proof.
  assert (V : valid_date (mkdate 2025 1 31)) by reflexivity.
  split; [exact V|].
  exact (proj2 (ex_dividend_date_before (mkdate 2025 1 31) weekdays_go_back V)).
Defined.

Lemma coupon_period_length_witness :
  valid_gilt TN25 /\
  Gilt.prev_next_coupon_date TN25 d_2023_12_01
  = Ok (mkdate 2023 7 31, mkdate 2024 1 31) /\
  181 <= days (mkdate 2024 1 31) (mkdate 2023 7 31) <= 184.
Proof.
  assert (V : valid_gilt TN25) by (split; reflexivity).
  assert (E : Gilt.prev_next_coupon_date TN25 d_2023_12_01
              = Ok (mkdate 2023 7 31, mkdate 2024 1 31))
    by (vm_compute; reflexivity).
  split; [exact V|]. split; [exact E|].
  exact (coupon_period_length TN25 d_2023_12_01 _ _ V E).
Defined.

Lemma standard_period_after_244_days_witness :
  valid_gilt TN25 /\ in_life TN25 d_2024_07_31 /\
  244 <= days d_2024_07_31 (issue_date TN25) /\
  exists prev next,
    Gilt.prev_next_coupon_date TN25 d_2024_07_31 = Ok (prev, next) /\
    Gilt._period TN25 prev = STANDARD.
Proof.
  assert (V : valid_gilt TN25) by (split; reflexivity).
  assert (L : in_life TN25 d_2024_07_31)
    by (unfold in_life; vm_compute; split; discriminate).
  assert (D : 244 <= days d_2024_07_31 (issue_date TN25))
    by (vm_compute; discriminate).
  split; [exact V|]. split; [exact L|]. split; [exact D|].
  destruct (standard_period_after_244_days TN25 d_2024_07_31 V L D)
    as (prev & next & E & P & _).
  exists prev, next. split; assumption.
Defined.

Lemma accrued_interest_standard_bounds_witness :
  valid_gilt TN25 /\ (0 <= coupon TN25)%Q /\
  Gilt.prev_next_coupon_date TN25 d_2024_10_31
  = Ok (mkdate 2024 7 31, mkdate 2025 1 31) /\
  Gilt._period TN25 (mkdate 2024 7 31) = STANDARD /\
  exists a,
    Gilt.accrued_interest TN25 d_2024_10_31 = Ok a /\
    (0 <= a <= coupon TN25 / 2)%Q.
Proof.
  assert (V : valid_gilt TN25) by (split; reflexivity).
  assert (C : (0 <= coupon TN25)%Q) by discriminate.
  assert (E : Gilt.prev_next_coupon_date TN25 d_2024_10_31
              = Ok (mkdate 2024 7 31, mkdate 2025 1 31))
    by (vm_compute; reflexivity).
  assert (P : Gilt._period TN25 (mkdate 2024 7 31) = STANDARD)
    by (vm_compute; reflexivity).
  split; [exact V|]. split; [exact C|]. split; [exact E|]. split; [exact P|].
  destruct (accrued_interest_standard_bounds TN25 d_2024_10_31 _ _ V C E P)
    as (a & Ea & Ha).
  exists a. split; [exact Ea|].
  replace ((d_2024_10_31 >? Gilt.ex_dividend_date (mkdate 2025 1 31))%date)
    with false in Ha by (vm_compute; reflexivity).
  exact Ha.
Defined.

Lemma accrued_interest_on_coupon_date_witness :
  valid_gilt TN25 /\
  Gilt.prev_next_coupon_date TN25 d_2024_07_31
  = Ok (mkdate 2024 1 31, d_2024_07_31) /\
  toordinal (Gilt.ex_dividend_date d_2024_07_31) < toordinal d_2024_07_31 /\
  exists a, Gilt.accrued_interest TN25 d_2024_07_31 = Ok a /\ (a == 0)%Q.
Proof.
  assert (V : valid_gilt TN25) by (split; reflexivity).
  assert (E : Gilt.prev_next_coupon_date TN25 d_2024_07_31
              = Ok (mkdate 2024 1 31, d_2024_07_31))
    by (vm_compute; reflexivity).
  assert (X : toordinal (Gilt.ex_dividend_date d_2024_07_31)
              < toordinal d_2024_07_31) by (vm_compute; reflexivity).
  split; [exact V|]. split; [exact E|]. split; [exact X|].
  exact (accrued_interest_on_coupon_date TN25 d_2024_07_31 _ _ V E eq_refl X).
Defined.

Lemma accrued_interest_at_issue_short_witness :
  valid_gilt short_first_period /\
  Gilt.prev_next_coupon_date short_first_period (mkdate 2023 8 15)
  = Ok (mkdate 2023 7 31, mkdate 2024 1 31) /\
  Gilt._period short_first_period (mkdate 2023 7 31) = SHORT /\
  exists a,
    Gilt.accrued_interest short_first_period (mkdate 2023 8 15) = Ok a /\
    (a == 0)%Q.
Proof.
  assert (V : valid_gilt short_first_period) by (split; reflexivity).
  assert (E : Gilt.prev_next_coupon_date short_first_period (mkdate 2023 8 15)
              = Ok (mkdate 2023 7 31, mkdate 2024 1 31))
    by (vm_compute; reflexivity).
  assert (P : Gilt._period short_first_period (mkdate 2023 7 31) = SHORT)
    by (vm_compute; reflexivity).
  assert (X : toordinal (mkdate 2023 8 15)
              <= toordinal (Gilt.ex_dividend_date (mkdate 2024 1 31)))
    by (vm_compute; discriminate).
  split; [exact V|]. split; [exact E|]. split; [exact P|].
  exact (accrued_interest_at_issue_short short_first_period (mkdate 2023 8 15)
           _ _ V E P eq_refl X).
Defined.

Lemma cash_flows_end_with_redemption_witness :
  valid_gilt TN25 /\ in_life TN25 d_2023_12_01 /\
  toordinal d_2023_12_01 <= toordinal (Gilt.ex_dividend_date (maturity TN25)) /\
  Gilt.min_coupon_days <= days (maturity TN25) (issue_date TN25) /\
  exists coupons,
    Gilt.cash_flows TN25 d_2023_12_01 = Ok (coupons ++ [(maturity TN25, 100%Q)]).
Proof.
  assert (V : valid_gilt TN25) by (split; reflexivity).
  assert (L : in_life TN25 d_2023_12_01)
    by (unfold in_life; vm_compute; split; discriminate).
  assert (X : toordinal d_2023_12_01
              <= toordinal (Gilt.ex_dividend_date (maturity TN25)))
    by (vm_compute; discriminate).
  assert (D : Gilt.min_coupon_days <= days (maturity TN25) (issue_date TN25))
    by (vm_compute; discriminate).
  split; [exact V|]. split; [exact L|]. split; [exact X|]. split; [exact D|].
  destruct (cash_flows_end_with_redemption TN25 d_2023_12_01 V L X D)
    as (coupons & E & _).
  exists coupons. exact E.
Defined.

Lemma cash_flows_dates_ordered_witness :
  valid_gilt TN25 /\ in_life TN25 d_2024_07_31 /\
  toordinal d_2024_07_31 <= toordinal (Gilt.ex_dividend_date (maturity TN25)) /\
  Gilt.min_coupon_days <= days (maturity TN25) (issue_date TN25) /\
  exists flows,
    Gilt.cash_flows TN25 d_2024_07_31 = Ok flows /\
    StronglySorted (fun a b => toordinal a <= toordinal b) (map fst flows).
Proof.
  assert (V : valid_gilt TN25) by (split; reflexivity).
  assert (L : in_life TN25 d_2024_07_31)
    by (unfold in_life; vm_compute; split; discriminate).
  assert (X : toordinal d_2024_07_31
              <= toordinal (Gilt.ex_dividend_date (maturity TN25)))
    by (vm_compute; discriminate).
  assert (D : Gilt.min_coupon_days <= days (maturity TN25) (issue_date TN25))
    by (vm_compute; discriminate).
  split; [exact V|]. split; [exact L|]. split; [exact X|]. split; [exact D|].
  destruct (cash_flows_dates_ordered TN25 d_2024_07_31 V L X D)
    as (flows & E & S & _).
  exists flows. split; assumption.
Defined.

Lemma cash_flows_ex_dividend_witness :
  valid_gilt TN25 /\ in_life TN25 d_2024_07_31 /\
  toordinal d_2024_07_31 <= toordinal (Gilt.ex_dividend_date (maturity TN25)) /\
  Gilt.min_coupon_days <= days (maturity TN25) (issue_date TN25) /\
  Gilt.prev_next_coupon_date TN25 d_2024_07_31
  = Ok (mkdate 2024 1 31, d_2024_07_31) /\
  exists flows,
    Gilt.cash_flows TN25 d_2024_07_31 = Ok flows /\
    Forall (fun flow => toordinal d_2024_07_31 < toordinal (fst flow)) flows.
Proof.
  assert (V : valid_gilt TN25) by (split; reflexivity).
  assert (L : in_life TN25 d_2024_07_31)
    by (unfold in_life; vm_compute; split; discriminate).
  assert (X : toordinal d_2024_07_31
              <= toordinal (Gilt.ex_dividend_date (maturity TN25)))
    by (vm_compute; discriminate).
  assert (D : Gilt.min_coupon_days <= days (maturity TN25) (issue_date TN25))
    by (vm_compute; discriminate).
  assert (E : Gilt.prev_next_coupon_date TN25 d_2024_07_31
              = Ok (mkdate 2024 1 31, d_2024_07_31))
    by (vm_compute; reflexivity).
  split; [exact V|]. split; [exact L|]. split; [exact X|]. split; [exact D|].
  split; [exact E|].
  destruct (cash_flows_ex_dividend TN25 d_2024_07_31 _ _ V L X D E)
    as (flows & Ef & H).
  exists flows. split; [exact Ef|].
  replace ((d_2024_07_31 >? Gilt.ex_dividend_date d_2024_07_31)%date)
    with true in H by (vm_compute; reflexivity).
  exact H.
Defined.


Lemma ytm_prepare_succeeds_witness :
  valid_gilt TN25 /\
  Gilt.prev_next_coupon_date TN25 d_2023_12_01
  = Ok (mkdate 2023 7 31, mkdate 2024 1 31) /\
  toordinal (mkdate 2023 7 31) < toordinal d_2023_12_01 /\
  exists fr,
    Gilt.ytm_prepare TN25 d_2023_12_01 = Ok fr /\ 181 <= Gilt.s fr <= 184.
Proof.
  assert (V : valid_gilt TN25) by (split; reflexivity).
  assert (E : Gilt.prev_next_coupon_date TN25 d_2023_12_01
              = Ok (mkdate 2023 7 31, mkdate 2024 1 31))
    by (vm_compute; reflexivity).
  assert (H : toordinal (mkdate 2023 7 31) < toordinal d_2023_12_01)
    by (vm_compute; reflexivity).
  split; [exact V|]. split; [exact E|]. split; [exact H|].
  destruct (ytm_prepare_succeeds TN25 d_2023_12_01 _ _ V E (or_introl H))
    as (fr & Ef & Hs & _).
  exists fr. split; assumption.
Defined.

Lemma ytm_assertion_fails_witness :
  valid_gilt issued_on_coupon_date /\
  Gilt.prev_next_coupon_date issued_on_coupon_date (mkdate 2023 7 31)
  = Ok (mkdate 2023 7 31, mkdate 2024 1 31) /\
  Gilt._period issued_on_coupon_date (mkdate 2023 7 31) <> LONG /\
  Gilt.ytm issued_on_coupon_date 100 (mkdate 2023 7 31) = Raise AssertionError.
Proof.
  assert (V : valid_gilt issued_on_coupon_date) by (split; reflexivity).
  assert (E : Gilt.prev_next_coupon_date issued_on_coupon_date (mkdate 2023 7 31)
              = Ok (mkdate 2023 7 31, mkdate 2024 1 31))
    by (vm_compute; reflexivity).
  assert (P : Gilt._period issued_on_coupon_date (mkdate 2023 7 31) <> LONG)
    by (vm_compute; discriminate).
  assert (H : toordinal (mkdate 2023 7 31) <= toordinal (mkdate 2023 7 31))
    by lia.
  split; [exact V|]. split; [exact E|]. split; [exact P|].
  exact (proj2 (ytm_assertion_fails issued_on_coupon_date 100 (mkdate 2023 7 31)
                  _ _ V E H (or_introl P))).
Defined.

Lemma fixed_date_before_witness :
  valid_date (maturity (base linker_2068)) /\
  IndexLinkedGilt.redemption_fixed linker_2068 = Ok (mkdate 2068 1 1).
Proof.
  assert (V : valid_date (maturity (base linker_2068))) by reflexivity.
  split; [exact V|].
  destruct (fixed_date_before linker_2068 _ V) as (fixed & E & _).
  unfold IndexLinkedGilt.redemption_fixed. rewrite E.
  vm_compute in E. injection E as <-. reflexivity.
Defined.

Lemma is_fixed_earlier_witness :
  valid_date d_2023_12_01 /\ valid_date d_2023_12_15 /\
  toordinal d_2023_12_01 <= toordinal d_2023_12_15 /\
  IndexLinkedGilt.is_fixed linker_2068 d_2023_12_15 = Ok true /\
  IndexLinkedGilt.is_fixed linker_2068 d_2023_12_01 = Ok true.
Proof.
  assert (V1 : valid_date d_2023_12_01) by reflexivity.
  assert (V2 : valid_date d_2023_12_15) by reflexivity.
  assert (H : toordinal d_2023_12_01 <= toordinal d_2023_12_15)
    by (vm_compute; discriminate).
  assert (F : IndexLinkedGilt.is_fixed linker_2068 d_2023_12_15 = Ok true)
    by (vm_compute; reflexivity).
  split; [exact V1|]. split; [exact V2|]. split; [exact H|]. split; [exact F|].
  exact (is_fixed_earlier linker_2068 _ _ V1 V2 H F).
Defined.

Lemma ref_rpi_interpolation_witness :
  IndexLinkedGilt.lag linker_2068 = 3 /\ valid_date d_2023_12_15 /\
  IndexLinkedGilt.ref_rpi linker_2068 d_2023_12_15 None
  = Ok (round (300 + (14 # 31) * (300 - 300)) 5).
Proof.
  assert (G : IndexLinkedGilt.lag linker_2068 = 3) by reflexivity.
  assert (V : valid_date d_2023_12_15) by reflexivity.
  split; [exact G|]. split; [exact V|].
  destruct (ref_rpi_interpolation linker_2068 d_2023_12_15 None 300 300 G V
              eq_refl eq_refl) as (_ & _ & E & _).
  rewrite E. vm_compute. reflexivity.
Defined.

Lemma fixed_index_ratio_witness :
  monthly_series (rpi_series linker_2068) /\ valid_date d_2023_12_15 /\
  IndexLinkedGilt.is_fixed linker_2068 d_2023_12_15 = Ok true /\
  IndexLinkedGilt.index_ratio linker_2068 d_2023_12_15 (Some (1 # 10)%Q)
  = IndexLinkedGilt.index_ratio linker_2068 d_2023_12_15 None.
Proof.
  assert (M : monthly_series (rpi_series linker_2068))
    by apply flat_rpi_monthly.
  assert (V : valid_date d_2023_12_15) by reflexivity.
  assert (F : IndexLinkedGilt.is_fixed linker_2068 d_2023_12_15 = Ok true)
    by (vm_compute; reflexivity).
  split; [exact M|]. split; [exact V|]. split; [exact F|].
  exact (proj2 (fixed_index_ratio linker_2068 d_2023_12_15 (Some (1 # 10)%Q) None
                  M V (or_introl eq_refl) F)).
Defined.

Lemma filter_in_order_witness :
  Forall valid_maturity issued /\
  exists selected,
    Issued.filter issued (Some false) (Some d_2024_10_31) = Ok selected /\
    kept_in_order selected issued /\
    (In (Conventional TN25) selected) /\
    ~ In (IndexLinked linker_2068) selected.
Proof.
  assert (V : Forall valid_maturity issued)
    by (repeat constructor).
  split; [exact V|].
  destruct (filter_in_order issued (Some false) (Some d_2024_10_31) V)
    as (selected & E & K & H & _).
  exists selected. split; [exact E|]. split; [exact K|]. split.
  - apply H. split; [left; reflexivity|]. split; [|exact I].
    unfold tradable. vm_compute. discriminate.
  - intros Hin. apply H in Hin. destruct Hin as (_ & _ & S).
    vm_compute in S. discriminate.
Defined.

Lemma filter_partition_witness :
  Forall valid_maturity issued /\
  exists both conventional index_linked,
    Issued.filter issued None (Some d_2024_10_31) = Ok both /\
    Issued.filter issued (Some false) (Some d_2024_10_31) = Ok conventional /\
    Issued.filter issued (Some true) (Some d_2024_10_31) = Ok index_linked /\
    Permutation both (conventional ++ index_linked).
Proof.
  assert (V : Forall valid_maturity issued)
    by (repeat constructor).
  split; [exact V|].
  destruct (filter_partition issued (Some d_2024_10_31) V)
    as (both & conv & idx & Eb & Ec & Ei & P & _).
  exists both, conv, idx. repeat split; assumption.
Defined.

Lemma schedule_ascending_witness :
  (forall a b, 0 <= a < b ->
     toordinal (shift_month d_2024_01_10 a)
     < toordinal (shift_month d_2024_01_10 b)) /\
  List.length (schedule d_2024_01_10 3 10000 shift_month None) = 3%nat /\
  hd_error (schedule d_2024_01_10 3 10000 shift_month None)
  = Some (mkdate 2024 2 10, 10000%Q).
Proof.
  assert (H : forall a b, 0 <= a < b ->
     toordinal (shift_month d_2024_01_10 a)
     < toordinal (shift_month d_2024_01_10 b)).
  { intros a b Hab. apply shift_month_lt; [simpl; lia|lia]. }
  split; [exact H|].
  destruct (schedule_ascending d_2024_01_10 3 10000 shift_month None H)
    as (L & _ & _ & Hd).
  split; [exact L|]. apply Hd. lia.
Defined.

Lemma yearly_consumption_of_schedule_witness :
  valid_date d_2024_01_10 /\
  Solve.yearly_consumption d_2024_01_10
    (schedule d_2024_01_10 3 10000 shift_month (Some d_2024_01_10))
  = Raise ZeroDivisionError.
Proof.
  assert (V : valid_date d_2024_01_10) by reflexivity.
  split; [exact V|].
  destruct (yearly_consumption_of_schedule d_2024_01_10 3 10000
              (Some d_2024_01_10) V) as (_ & H & _).
  apply H; [lia|reflexivity].
Defined.

(** In year 9999 there is no next April 5th: the first loop raises. *)
Lemma tax_events_year_9999 :
  Solve.tax_events (option Q) None (1 # 5) (mkdate 9999 5 1) (mkdate 9999 6 1) []
  = Raise ValueError.
Proof. vm_compute. reflexivity. Qed.


